(** * OllamaDiffuser: model lifecycle checks

    A shallow embedding of the download status check
    ([examples/check_model_download.py]), of the download progress monitor
    ([examples/monitor_download_progress.py]) and of the two components the
    scripts only import (the tiered model registry and the download
    orchestrator), followed by the properties proved about them.

    Conventions.
    - A Python [dict] of file name to size is an association list in insertion
      order; its keys are pairwise distinct ([NoDup] on the first projections).
    - The files below [model_path] are a finite map from the relative path to
      the [st_size] of what exists there: [disk !! f = None] is
      [not (model_path / f).exists()].
    - Byte counts are [Z]; [datetime] values are [Z] microseconds, and
      [timedelta.total_seconds()] is the rational [us / 10^6].
    - An exception that the code catches is a [None] input handled by the
      embedding; a division is written with [py_truediv], which returns [None]
      where Python raises [ZeroDivisionError]. *)

From Stdlib Require Import ssreflect ZArith QArith Qround Qminmax Lqa.
From Stdlib Require Import Ascii String List Lia.
From stdpp Require Import gmap strings list fin_maps.

#[local] Set Warnings "-register-all,-rewrite-rw".

Local Open Scope Z_scope.

(** ** Python helpers *)

(** [needle in hay] on [str]. *)
Fixpoint contains (needle hay : string) : bool :=
  String.prefix needle hay ||
  match hay with
  | EmptyString => false
  | String _ rest => contains needle rest
  end.

(** [s.endswith(suffix)]. *)
Fixpoint endswith (suffix s : string) : bool :=
  String.eqb s suffix ||
  match s with
  | EmptyString => false
  | String _ rest => endswith suffix rest
  end.

(** [sum(sizes)]. *)
Definition sum_sizes (sizes : list Z) : Z := foldl Z.add 0 sizes.

(** [a / b] on numbers: [None] is [ZeroDivisionError]. *)
Definition py_truediv (a b : Q) : option Q :=
  if Qeq_bool b 0 then None else Some (a / b)%Q.

(** [a > b] on rationals. *)
Definition Qgt_bool (a b : Q) : bool := negb (Qle_bool a b).

(** ** The download status check *)

Module Status.

(** What [check_download_status] returns: [False], [True], and the strings
    ["needs_config"], ["incomplete"], ["downloading"]. *)
Inductive Result : Set :=
| RetFalse
| RetTrue
| NeedsConfig
| Incomplete
| Downloading.

#[global] Instance Result_eq_dec : EqDecision Result.
Proof. solve_decision. Defined.

(** Everything the function reads from outside. *)
Record Env : Type := {
  (** [model_name in model_manager.model_registry] *)
  in_registry : bool;
  (** [model_path.exists()] *)
  path_exists : bool;
  (** [get_repo_file_list(repo_id)]: [None] when the call raises *)
  repo_file_list : option (list (string * Z));
  (** the files and directories below [model_path] *)
  disk : gmap string Z;
  (** [check_download_integrity(str(model_path), repo_id)] *)
  download_integrity : bool;
  (** [model_manager.is_model_installed(model_name)] *)
  is_model_installed : bool;
  (** [subprocess.run(['ps', 'aux'], ...).stdout]: [None] when it raises *)
  ps_stdout : option string
}.

(** [(model_path / f).exists()] *)
Definition file_exists (d : gmap string Z) (f : string) : bool :=
  bool_decide (is_Some (d !! f)).

(** [has_size_info = any(size > 0 for size in file_sizes.values())] *)
Definition has_size_info (file_sizes : list (string * Z)) : bool :=
  existsb (fun item : string * Z => (0 <? item.2)%Z) file_sizes.

(** One turn of the loop over [file_sizes.items()] (lines 106-112). *)
Definition compare_file (d : gmap string Z)
    (acc : list string * list (string * Z * Z)) (item : string * Z)
    : list string * list (string * Z * Z) :=
  let '(missing_files, incomplete_files) := acc in
  let '(expected_file, expected_size) := item in
  match d !! expected_file with
  | None => (missing_files ++ [expected_file], incomplete_files)
  | Some st_size =>
      if ((0 <? expected_size) && negb (st_size =? expected_size))%Z
      then (missing_files,
            incomplete_files ++ [(expected_file, st_size, expected_size)])
      else (missing_files, incomplete_files)
  end.

(** The lists [missing_files] and [incomplete_files] after the loop. *)
Definition compare_files (d : gmap string Z) (file_sizes : list (string * Z))
    : list string * list (string * Z * Z) :=
  foldl (compare_file d) ([], []) file_sizes.

Definition essential_files : list string := ["model_index.json"].

Definition essential_dirs : list string :=
  ["transformer"; "text_encoder"; "text_encoder_2"; "tokenizer";
   "tokenizer_2"; "vae"; "scheduler"].

(** [missing_essential] after the loop of lines 160-163. *)
Definition missing_essential (d : gmap string Z) : list string :=
  foldl (fun acc f => if file_exists d f then acc else acc ++ [f])
        [] essential_files.

(** [existing_dirs] after the loop of lines 165-168; only printed. *)
Definition existing_dirs (d : gmap string Z) : list string :=
  foldl (fun acc f => if file_exists d f then acc ++ [f] else acc)
        [] essential_dirs.

(** Lines 133-147 and 177-191: the integrity check, then the
    configuration check. *)
Definition integrity_then_config (e : Env) : Result :=
  if download_integrity e then
    if is_model_installed e then RetTrue else NeedsConfig
  else RetFalse.

(** Lines 193-205: the process table. *)
Definition process_check (model_name : string) (e : Env) : Result :=
  match ps_stdout e with
  | Some stdout =>
      if contains ("ollamadiffuser pull " +:+ model_name) stdout
      then Downloading else Incomplete
  | None => Incomplete
  end.

(** [file_sizes] after the [try] of lines 65-75. *)
Definition file_sizes_of (e : Env) : list (string * Z) :=
  match repo_file_list e with
  | Some file_sizes => file_sizes
  | None => []
  end.

Definition check_download_status (model_name : string) (e : Env) : Result :=
  if negb (in_registry e) then RetFalse
  else if negb (path_exists e) then RetFalse
  else
    let file_sizes := file_sizes_of e in
    match file_sizes with
    | [] => process_check model_name e
    | _ :: _ =>
        if has_size_info file_sizes then
          match compare_files (disk e) file_sizes with
          | ([], []) => integrity_then_config e
          | _ => Incomplete
          end
        else
          match missing_essential (disk e) with
          | [] => integrity_then_config e
          | _ :: _ => Incomplete
          end
    end.

(** The specification's [Missing(files)]: the expected but absent relative
    paths, in order. *)
Definition Missing (d : gmap string Z) (file_sizes : list (string * Z))
    : list string :=
  filter (fun f => d !! f = None) file_sizes.*1.

(** The specification's [SizeMismatch(files)]: the triples (path, actual
    size, expected size) with actual <> expected and expected > 0. *)
Definition SizeMismatch (d : gmap string Z) (file_sizes : list (string * Z))
    : list (string * Z * Z) :=
  omap (fun item : string * Z =>
          match d !! item.1 with
          | Some actual =>
              if bool_decide (actual <> item.2 /\ 0 < item.2)
              then Some (item.1, actual, item.2) else None
          | None => None
          end) file_sizes.

(** A directory that holds every expected file at its declared size. *)
Definition all_match (d : gmap string Z) (file_sizes : list (string * Z))
    : Prop :=
  forall f x, (f, x) ∈ file_sizes -> d !! f = Some x.

(** The file-level part of the check has passed: the code has reached one
    of the two "Checking download integrity" lines. *)
Definition files_complete (e : Env) : bool :=
  match file_sizes_of e with
  | [] => false
  | _ :: _ =>
      if has_size_info (file_sizes_of e)
      then bool_decide (compare_files (disk e) (file_sizes_of e) = ([], []))
      else bool_decide (missing_essential (disk e) = [])
  end.

End Status.

(** ** The download progress monitor *)

Module Monitor.

(** The fields of [DownloadMonitor] that change between two displays. *)
Record State : Type := {
  start_time : Z;
  last_size : Z;
  last_check_time : Z;
  size_history : list (Z * Z)
}.

(** [__init__]: the two calls of [datetime.now()]. *)
Definition init (now_start now_check : Z) : State :=
  {| start_time := now_start;
     last_size := 0;
     last_check_time := now_check;
     size_history := [] |}.

(** [timedelta.total_seconds()] of a difference of [us] microseconds. *)
Definition total_seconds (us : Z) : Q := Qmake us 1000000.

(** [calculate_speed(current_size)], with [now] the clock it reads. *)
Definition calculate_speed (m : State) (now current_size : Z) : option Q :=
  let time_diff := total_seconds (now - last_check_time m) in
  if Qgt_bool time_diff 0 && (0 <? last_size m)%Z then
    let size_diff := current_size - last_size m in
    py_truediv (inject_Z size_diff) time_diff
  else Some 0%Q.

(** What [estimate_remaining_time] returns: the string ["Unknown"], or
    [self.format_time(remaining_seconds)], which is a number followed by a
    unit letter. *)
Inductive Eta : Type :=
| Unknown
| FormatTime (remaining_seconds : Q).

(** 23GB, the constant of lines 76 and 135. *)
Definition flux_dev_size : Z := 23 * 1024 * 1024 * 1024.

(** [estimate_remaining_time(current_size, speed, target_size=None)] *)
Definition estimate_remaining_time
    (current_size : Z) (speed : Q) (target_size : option Z) : option Eta :=
  if Qle_bool speed 0 then Some Unknown
  else
    let target_size :=
      match target_size with
      | None => flux_dev_size
      | Some t => t
      end in
    let remaining_size := Z.max 0 (target_size - current_size) in
    match py_truediv (inject_Z remaining_size) speed with
    | Some remaining_seconds => Some (FormatTime remaining_seconds)
    | None => None
    end.

(** What one call of [display_progress] reads: the size on disk and the
    three clock values of lines 50, 165 and 168. *)
Record Obs : Type := {
  now_speed : Z;
  current_size : Z;
  now_check : Z;
  now_history : Z
}.

(** The "Overall Progress" lines that depend on a division: the speed and
    the ETA (printed only when [speed > 0]) and the percentage (printed
    only when [current_size > 0]). *)
Record Shown : Type := {
  shown_speed : option Q;
  shown_eta : option Eta;
  shown_progress : option Q
}.

(** Lines 168-171. *)
Definition push_history (h : list (Z * Z)) (sample : Z * Z) : list (Z * Z) :=
  let h := h ++ [sample] in
  if (10 <? length h)%nat then tail h else h.

(** [display_progress]: [None] is an uncaught [ZeroDivisionError]. *)
Definition display_progress (m : State) (o : Obs) : option (Shown * State) :=
  match calculate_speed m (now_speed o) (current_size o) with
  | None => None
  | Some speed =>
      let eta :=
        if Qgt_bool speed 0
        then option_map Some
               (estimate_remaining_time (current_size o) speed None)
        else Some None in
      let progress :=
        if (0 <? current_size o)%Z
        then option_map Some
               (py_truediv (inject_Z (current_size o)) (inject_Z flux_dev_size))
        else Some None in
      match eta, progress with
      | Some eta, Some progress =>
          Some ({| shown_speed := if Qgt_bool speed 0 then Some speed else None;
                   shown_eta := eta;
                   shown_progress := progress |},
                {| start_time := start_time m;
                   last_size := current_size o;
                   last_check_time := now_check o;
                   size_history :=
                     push_history (size_history m)
                                  (now_history o, current_size o) |})
      | _, _ => None
      end
  end.

(** The loop of [run], stopped after the observations [obs]. *)
Fixpoint run (m : State) (obs : list Obs) : option State :=
  match obs with
  | [] => Some m
  | o :: obs =>
      match display_progress m o with
      | Some (_, m') => run m' obs
      | None => None
      end
  end.

(** The samples the observations [obs] contribute to the history. *)
Definition samples (obs : list Obs) : list (Z * Z) :=
  map (fun o => (now_history o, current_size o)) obs.

End Monitor.

(** ** The local inventory scans *)

Module Inventory.

(** What [rglob] can meet: a regular file, a directory, or something that
    is neither (a dangling link, a socket). *)
Inductive Node : Type :=
| File (st_size : Z)
| Dir (entries : list (string * Node))
| Other.

(** [model_path.rglob('*')]: every entry below the root, with its path
    relative to the root as a list of components. *)
Fixpoint rglob_node (parent : list string) (name : string) (n : Node)
    : list (list string * Node) :=
  (parent ++ [name], n) ::
  match n with
  | Dir entries =>
      (fix rglob_entries (es : list (string * Node)) :=
         match es with
         | [] => []
         | e :: es =>
             rglob_node (parent ++ [name]) e.1 e.2 ++ rglob_entries es
         end) entries
  | _ => []
  end.

Fixpoint rglob_below (parent : list string) (entries : list (string * Node))
    : list (list string * Node) :=
  match entries with
  | [] => []
  | e :: es => rglob_node parent e.1 e.2 ++ rglob_below parent es
  end.

Definition rglob (root : list (string * Node)) : list (list string * Node) :=
  rglob_below [] root.

(** The node at a relative path. *)
Inductive at_path : list (string * Node) -> list string -> Node -> Prop :=
| at_entry entries name n :
    (name, n) ∈ entries -> at_path entries [name] n
| at_below entries name sub p n :
    (name, Dir sub) ∈ entries -> at_path sub p n ->
    at_path entries (name :: p) n.

(** [str(rel_path)] *)
Definition path_str (p : list string) : string := String.concat "/" p.

(** [file_path.name] *)
Definition path_name (p : list string) : string := List.last p ""%string.

(** One turn of the loop of lines 81-86 of the status check. *)
Definition local_step (acc : list (string * Z) * Z) (p : list string * Node)
    : list (string * Z) * Z :=
  match p.2 with
  | File file_size => (acc.1 ++ [(path_str p.1, file_size)], acc.2 + file_size)
  | _ => acc
  end.

(** [local_files] and [local_size] of the status check. *)
Definition scan_local (root : list (string * Node)) : list (string * Z) * Z :=
  foldl local_step ([], 0) (rglob root).

(** One turn of the loop of [get_total_downloaded_size]. *)
Definition total_step (total_size : Z) (p : list string * Node) : Z :=
  match p.2 with
  | File st_size =>
      if negb (endswith ".lock" (path_name p.1))
      then total_size + st_size else total_size
  | _ => total_size
  end.

(** [get_total_downloaded_size]; [None] is a [model_path] that does not
    exist. *)
Definition get_total_downloaded_size (root : option (list (string * Node))) : Z :=
  match root with
  | Some entries => foldl total_step 0 (rglob entries)
  | None => 0
  end.

(** The regular files below the root, with their sizes. *)
Definition regular_files (root : list (string * Node)) : list (list string * Z) :=
  omap (fun p : list string * Node =>
          match p.2 with
          | File sz => Some (p.1, sz)
          | _ => None
          end) (rglob root).

Definition is_lock (p : list string) : bool := endswith ".lock" (path_name p).

(** The sum the specification asks for: the sizes of the regular files
    that are not lock files. *)
Definition non_lock_total (root : list (string * Node)) : Z :=
  sum_sizes (map snd (filter (fun f => is_lock f.1 = false) (regular_files root))).

End Inventory.

(** ** The model registry *)

Module Registry.

(** Modelled from the spec: the three precedence tiers of the registry,
    whose code ([ollamadiffuser.core.config.model_registry]) the scripts
    import. *)
Inductive Tier : Set :=
| Builtin
| FileConfigured
| Runtime.

#[global] Instance Tier_eq_dec : EqDecision Tier.
Proof. solve_decision. Defined.

(** Modelled from the spec: the descriptor fields the registry reads; a
    descriptor is a dictionary, so a field can be missing. *)
Record ModelDescriptor : Type := {
  repo_id : option string;
  model_type : option string;
  variant : option string
}.

(** Modelled from the spec: one mapping from name to descriptor per tier. *)
Record Tiers : Type := {
  builtin : gmap string ModelDescriptor;
  file_configured : gmap string ModelDescriptor;
  runtime : gmap string ModelDescriptor
}.

Definition tier_map (t : Tier) (r : Tiers) : gmap string ModelDescriptor :=
  match t with
  | Builtin => builtin r
  | FileConfigured => file_configured r
  | Runtime => runtime r
  end.

Definition set_tier (t : Tier) (m : gmap string ModelDescriptor) (r : Tiers)
    : Tiers :=
  match t with
  | Builtin =>
      {| builtin := m; file_configured := file_configured r; runtime := runtime r |}
  | FileConfigured =>
      {| builtin := builtin r; file_configured := m; runtime := runtime r |}
  | Runtime =>
      {| builtin := builtin r; file_configured := file_configured r; runtime := m |}
  end.

(** Modelled from the spec: the tiers from the highest precedence to the
    lowest. *)
Definition precedence : list Tier := [Runtime; FileConfigured; Builtin].

(** The position of a tier in the ascending order of the spec. *)
Definition rank (t : Tier) : nat :=
  match t with
  | Builtin => 0
  | FileConfigured => 1
  | Runtime => 2
  end.

(** Modelled from the spec: [resolve(name)] walks the layers from high to
    low and stops at the first one that holds the name. *)
Fixpoint resolve (layers : list Tier) (r : Tiers) (name : string)
    : option (Tier * ModelDescriptor) :=
  match layers with
  | [] => None
  | t :: layers =>
      match tier_map t r !! name with
      | Some d => Some (t, d)
      | None => resolve layers r name
      end
  end.

(** Modelled from the spec: [get(name)], [None] being "not found". *)
Definition get (r : Tiers) (name : string) : option ModelDescriptor :=
  snd <$> resolve precedence r name.

(** Modelled from the spec: the required fields of a descriptor. *)
Definition has_required_fields (d : ModelDescriptor) : bool :=
  bool_decide (is_Some (repo_id d)) && bool_decide (is_Some (model_type d)).

(** Modelled from the spec: [add(name, descriptor, tier=runtime)] inserts
    or overwrites in the tier and fails on a missing required field. *)
Definition add (name : string) (d : ModelDescriptor) (t : Tier) (r : Tiers)
    : bool * Tiers :=
  if has_required_fields d
  then (true, set_tier t (<[name := d]> (tier_map t r)) r)
  else (false, r).

(** Modelled from the spec: [remove(name)] removes from the tier that
    supplies the visible entry and returns false when no tier holds it. *)
Definition remove (name : string) (r : Tiers) : bool * Tiers :=
  match resolve precedence r name with
  | Some (t, _) => (true, set_tier t (delete name (tier_map t r)) r)
  | None => (false, r)
  end.

(** Modelled from the spec: [all_names()], a snapshot of the merged view. *)
Definition all_names (r : Tiers) : list string :=
  elements (dom (runtime r) ∪ dom (file_configured r) ∪ dom (builtin r)).

End Registry.

(** ** The download orchestrator *)

Module Orchestrator.

(** Modelled from the spec: the states of one orchestrator run, whose code
    ([ollamadiffuser.core.utils.download_utils] and the model manager) the
    scripts import. *)
Inductive Phase : Set :=
| Idle
| Requested
| InProgress
| Completed
| Failed
| Interrupted.

(** Modelled from the spec: what happens during a run. [Chunk f k] is the
    hub client writing [k] more bytes of the file [f], continuing from the
    bytes that are already there. *)
Inductive Event : Type :=
| Request
| Start
| Chunk (f : string) (k : Z)
| Finish
| Fail
| Kill.

Record Run : Type := {
  phase : Phase;
  files : gmap string Z
}.

(** The bytes on disk: the sum of the sizes of the files. *)
Definition total_bytes (d : gmap string Z) : Z :=
  map_fold (fun (_ : string) (sz acc : Z) => sz + acc) 0 d.

(** Modelled from the spec: [Idle -> Requested -> InProgress ->
    Completed | Failed | Interrupted]; only the transfer touches the
    files, and it only appends. [None] is an event the phase does not
    allow. *)
Definition step (r : Run) (ev : Event) : option Run :=
  match phase r, ev with
  | Idle, Request => Some {| phase := Requested; files := files r |}
  | Requested, Start => Some {| phase := InProgress; files := files r |}
  | InProgress, Chunk f k =>
      if (0 <? k)%Z
      then Some {| phase := InProgress;
                   files := <[f := default 0 (files r !! f) + k]> (files r) |}
      else None
  | InProgress, Finish => Some {| phase := Completed; files := files r |}
  | InProgress, Fail => Some {| phase := Failed; files := files r |}
  | InProgress, Kill => Some {| phase := Interrupted; files := files r |}
  | _, _ => None
  end.

(** Modelled from the spec: [install(name, force=False)] wipes the local
    files first only when [force] is set, then starts a run. *)
Definition install (force : bool) (d : gmap string Z) : Run :=
  {| phase := Idle; files := if force then ∅ else d |}.

(** The states a run goes through on the events [evs], the first one
    included; it stops at the first event that is not allowed. *)
Fixpoint trace (r : Run) (evs : list Event) : list Run :=
  r ::
  match evs with
  | [] => []
  | ev :: evs =>
      match step r ev with
      | Some r' => trace r' evs
      | None => []
      end
  end.

End Orchestrator.

(** ** The rest of the status checker *)

Module StatusReport.

(** The environment with another index, and with other files on disk. *)
Definition with_index (files : option (list (string * Z))) (e : Status.Env)
    : Status.Env :=
  {| Status.in_registry := Status.in_registry e;
     Status.path_exists := Status.path_exists e;
     Status.repo_file_list := files;
     Status.disk := Status.disk e;
     Status.download_integrity := Status.download_integrity e;
     Status.is_model_installed := Status.is_model_installed e;
     Status.ps_stdout := Status.ps_stdout e |}.


(** [total_expected_size] after the [try] of lines 65-75. *)
Definition total_expected_size (e : Status.Env) : Z :=
  sum_sizes (Status.file_sizes_of e).*2.

(** Lines 90-92: the "Progress" line. The outer [None] is an uncaught
    [ZeroDivisionError], the inner one a line that is not printed. *)
Definition progress_percent (local_size total_expected_size : Z)
    : option (option Q) :=
  if (0 <? total_expected_size)%Z then
    match py_truediv (inject_Z local_size) (inject_Z total_expected_size) with
    | Some ratio => Some (Some (ratio * 100)%Q)
    | None => None
    end
  else Some None.

(** The five endings of [main] (lines 288-308). *)
Inductive Advice : Set :=
| ReadyToUse
| NeedsConfiguration
| CurrentlyDownloading
| ResumeDownload
| NotDownloaded.

(** The [if status is True ... elif ... else] of [main]. *)
Definition advice (status : Status.Result) : Advice :=
  match status with
  | Status.RetTrue => ReadyToUse
  | Status.NeedsConfig => NeedsConfiguration
  | Status.Downloading => CurrentlyDownloading
  | Status.Incomplete => ResumeDownload
  | Status.RetFalse => NotDownloaded
  end.

(** [main] with a model name: the status, then the advice. *)
Definition main (model_name : string) (e : Status.Env) : Advice :=
  advice (Status.check_download_status model_name e).

End StatusReport.

(** ** The rest of the monitor *)

Module MonitorDisplay.

(** [int(x)]: truncation towards zero. *)
Definition py_int (x : Q) : Z :=
  if Qle_bool 0 x then Qfloor x else Qceiling x.

(** [a < b] on rationals. *)
Definition Qlt_bool (a b : Q) : bool := negb (Qle_bool b a).

(** The number [f"{x:.0f}"] prints: the nearest integer, the even one on a
    tie. The sign of a zero is not kept. *)
Definition round_half_even (x : Q) : Z :=
  let f := Qfloor x in
  let r := (x - inject_Z f)%Q in
  if Qlt_bool r (1 # 2) then f
  else if Qlt_bool (1 # 2) r then f + 1
  else if Z.even f then f else f + 1.

(** [x // d] and [x % d] for a positive integer [d], on the exact value of
    [x]. *)
Definition py_floordiv (x : Q) (d : Z) : Q := inject_Z (Qfloor (x / inject_Z d)).

Definition py_mod (x : Q) (d : Z) : Q :=
  (x - inject_Z d * py_floordiv x d)%Q.

(** What [format_time] returns, with the numbers its three formats print:
    ["{}s"], ["{}m {}s"] and ["{}h {}m"]. *)
Inductive TimeText : Set :=
| Seconds (s : Z)
| MinutesSeconds (m s : Z)
| HoursMinutes (h m : Z).

(** [format_time(seconds)] *)
Definition format_time (seconds : Q) : TimeText :=
  if Qlt_bool seconds 60 then Seconds (round_half_even seconds)
  else if Qlt_bool seconds 3600 then
    MinutesSeconds (round_half_even (py_floordiv seconds 60))
                   (round_half_even (py_mod seconds 60))
  else
    let hours := py_floordiv seconds 3600 in
    let minutes := py_floordiv (py_mod seconds 3600) 60 in
    HoursMinutes (round_half_even hours) (round_half_even minutes).

(** The text of an ETA: ["Unknown"], or the formatted time. *)
Definition eta_text (eta : Monitor.Eta) : option TimeText :=
  match eta with
  | Monitor.Unknown => None
  | Monitor.FormatTime remaining_seconds => Some (format_time remaining_seconds)
  end.

(** A cell of the progress bar: a full block or a light one. *)
Inductive Cell : Set :=
| Full
| Light.

(** Lines 135-141: the percentage and the bar, printed when
    [current_size > 0]. The outer [None] is an uncaught
    [ZeroDivisionError]. *)
Definition progress_bar (current_size : Z) : option (option (Q * list Cell)) :=
  let estimated_total := Monitor.flux_dev_size in
  if (0 <? current_size)%Z then
    match py_truediv (inject_Z current_size) (inject_Z estimated_total) with
    | None => None
    | Some ratio =>
        let progress := Qmin 100 (ratio * 100) in
        let bar_length := 40 in
        match py_truediv (inject_Z bar_length * progress) 100 with
        | None => None
        | Some cells =>
            let filled_length := py_int cells in
            Some (Some (progress,
                        replicate (Z.to_nat filled_length) Full ++
                        replicate (Z.to_nat (bar_length - filled_length)) Light))
        end
    end
  else Some None.

(** [self.cache_path], below [self.model_path]. *)
Definition cache_path : list string :=
  [".cache"%string; "huggingface"%string; "download"%string].

(** The entry of a directory with a given name. *)
Fixpoint entry_named (name : string) (entries : list (string * Inventory.Node))
    : option Inventory.Node :=
  match entries with
  | [] => None
  | e :: entries =>
      if String.eqb e.1 name then Some e.2 else entry_named name entries
  end.

(** The content of the directory at a path; [None] when the path does not
    exist or is not a directory. *)
Fixpoint directory_at (entries : list (string * Inventory.Node))
    (p : list string) : option (list (string * Inventory.Node)) :=
  match p with
  | [] => Some entries
  | name :: p =>
      match entry_named name entries with
      | Some (Inventory.Dir sub) => directory_at sub p
      | _ => None
      end
  end.

(** [get_incomplete_files]: what [rglob("*.incomplete")] yields below the
    cache directory, each path relative to it. *)
Definition get_incomplete_files (root : list (string * Inventory.Node))
    : list (list string * Inventory.Node) :=
  match directory_at root cache_path with
  | Some entries =>
      filter (fun p => endswith ".incomplete" (Inventory.path_name p.1) = true)
             (Inventory.rglob entries)
  | None => []
  end.

(** Lines 148-152: a process line as it is printed; a character of the line
    is one character of the string. *)
Definition shown_process (process : string) : string :=
  if (80 <? String.length process)%nat
  then String.substring 0 77 process +:+ "..."
  else process.

(** Lines 146-157: the process lines that are printed, and the number in the
    "... and N more" line when there is one. *)
Definition print_processes (processes : list string) : list string * option nat :=
  (map shown_process (take 3 processes),
   if (3 <? length processes)%nat then Some (length processes - 3)%nat else None).

(** The last lines of [run], after Ctrl+C: the average speed, printed when
    some time has passed. The outer [None] is an uncaught
    [ZeroDivisionError]. *)
Definition average_speed (m : Monitor.State) (now current_size : Z)
    : option (option Q) :=
  let elapsed := Monitor.total_seconds (now - Monitor.start_time m) in
  if Qgt_bool elapsed 0 then
    match py_truediv (inject_Z current_size) elapsed with
    | Some avg_speed => Some (Some avg_speed)
    | None => None
    end
  else Some None.

End MonitorDisplay.

(** ** Sample inputs *)

Module Sample.

(** The repository index of the scenario [{a.bin: 100, b.bin: 200}]. *)
Definition index : list (string * Z) := [("a.bin"%string, 100); ("b.bin"%string, 200)].

(** A directory that holds both files in full. *)
Definition full_disk : gmap string Z :=
  <["a.bin"%string := 100]> (<["b.bin"%string := 200]> ∅).

(** The index of a gated repository: names without sizes. *)
Definition gated_index : list (string * Z) :=
  [("model_index.json"%string, 0); ("vae/config.json"%string, 0)].

(** A directory with [model_index.json] and none of the component
    directories. *)
Definition index_only_disk : gmap string Z :=
  <["model_index.json"%string := 543]> ∅.

(** A directory with [model_index.json] and the seven component
    directories. *)
Definition structured_disk : gmap string Z :=
  foldr (fun dir d => <[dir := 4096]> d) index_only_disk Status.essential_dirs.

(** A directory with one component directory and no [model_index.json]. *)
Definition dir_only_disk : gmap string Z := <["transformer"%string := 4096]> ∅.

(** A model directory during a download: one finished file, and in the
    download cache a lock file and a partial file. *)
Definition downloading_tree : list (string * Inventory.Node) :=
  [("model_index.json"%string, Inventory.File 543);
   (".cache"%string,
    Inventory.Dir
      [("download"%string,
        Inventory.Dir
          [("vae.safetensors.lock"%string, Inventory.File 7);
           ("vae.safetensors.incomplete"%string, Inventory.File 5000)])])].

Definition env (registered : bool) (files : option (list (string * Z)))
    (d : gmap string Z) (installed : bool) : Status.Env :=
  {| Status.in_registry := registered;
     Status.path_exists := true;
     Status.repo_file_list := files;
     Status.disk := d;
     Status.download_integrity := true;
     Status.is_model_installed := installed;
     Status.ps_stdout := Some "root 1 0.0 0.0 ps aux"%string |}.

(** A descriptor with the two required fields. *)
Definition descriptor (repo type : string) : Registry.ModelDescriptor :=
  {| Registry.repo_id := Some repo;
     Registry.model_type := Some type;
     Registry.variant := None |}.

(** A registry whose built-in tier knows [flux.1-dev]. *)
Definition builtin_registry : Registry.Tiers :=
  {| Registry.builtin :=
       <["flux.1-dev"%string :=
           descriptor "black-forest-labs/FLUX.1-dev" "flux"]> ∅;
     Registry.file_configured := ∅;
     Registry.runtime := ∅ |}.

End Sample.

(** ** Directory trees *)

Module InventoryExtra.

(** A directory tree as a file system has it: the entries of a directory
    have pairwise distinct names, at every level. *)
Inductive distinct_names : list (string * Inventory.Node) -> Prop :=
| distinct_names_intro entries :
    NoDup entries.*1 ->
    (forall name sub, (name, Inventory.Dir sub) ∈ entries -> distinct_names sub) ->
    distinct_names entries.

(** The bytes of the regular files whose name ends in [.lock]. *)
Definition lock_total (root : list (string * Inventory.Node)) : Z :=
  sum_sizes
    (map snd (filter (fun f => Inventory.is_lock f.1 = true)
                (Inventory.regular_files root))).

End InventoryExtra.

(** ** Further sample inputs *)

Module Fixture.

(** A model directory with one finished file and, in the download cache of
    the hub client, a lock file and a partial file. *)
Definition cache_tree : list (string * Inventory.Node) :=
  [("model_index.json"%string, Inventory.File 543);
   (".cache"%string,
    Inventory.Dir
      [("huggingface"%string,
        Inventory.Dir
          [("download"%string,
            Inventory.Dir
              [("vae.safetensors.lock"%string, Inventory.File 0);
               ("vae.safetensors.incomplete"%string, Inventory.File 5000)])])])].

End Fixture.

(** * Properties *)

(** ** Python helpers *)

Lemma sum_sizes_foldl (a : Z) (l : list Z) : foldl Z.add a l = a + sum_sizes l.
Proof.
  unfold sum_sizes. revert a.
  induction l as [|x l IH]; intros a; simpl; [lia|].
  rewrite (IH (a + x)) (IH (0 + x)). lia.
Qed.

Lemma sum_sizes_cons (x : Z) (l : list Z) : sum_sizes (x :: l) = x + sum_sizes l.
Proof. unfold sum_sizes at 1. simpl. rewrite sum_sizes_foldl. lia. Qed.

Lemma sum_sizes_app (l k : list Z) : sum_sizes (l ++ k) = sum_sizes l + sum_sizes k.
Proof.
  induction l as [|x l IH]; simpl.
  - unfold sum_sizes at 2. simpl. lia.
  - rewrite !sum_sizes_cons IH. lia.
Qed.

Lemma nil_iff_no_elem {A : Type} (l : list A) : l = [] <-> forall x, x ∉ l.
Proof.
  split.
  - intros -> x. apply not_elem_of_nil.
  - intros H. destruct l as [|x l]; [done|]. destruct (H x). left.
Qed.

(** ** The download status check *)

Section StatusFacts.
Import Status.

Implicit Types (d : gmap string Z) (fs : list (string * Z)).

Lemma Missing_cons d f x fs :
  Missing d ((f, x) :: fs)
  = match d !! f with
    | Some _ => Missing d fs
    | None => f :: Missing d fs
    end.
Proof.
  rewrite /Missing fmap_cons filter_cons /=.
  destruct (d !! f); by case_decide.
Qed.

Lemma SizeMismatch_cons d f x fs :
  SizeMismatch d ((f, x) :: fs)
  = match d !! f with
    | Some a =>
        if bool_decide (a <> x /\ 0 < x)
        then (f, a, x) :: SizeMismatch d fs else SizeMismatch d fs
    | None => SizeMismatch d fs
    end.
Proof.
  rewrite /SizeMismatch /=. destruct (d !! f); [|done]. by case_bool_decide.
Qed.

(** The loop computes the two lists of the specification. *)
Lemma foldl_compare_file d fs missing incomplete :
  foldl (compare_file d) (missing, incomplete) fs
  = (missing ++ Missing d fs, incomplete ++ SizeMismatch d fs).
Proof.
  revert missing incomplete.
  induction fs as [|[f x] fs IH]; intros missing incomplete.
  - by rewrite /= !app_nil_r.
  - rewrite Missing_cons SizeMismatch_cons /=.
    destruct (d !! f) as [a|] eqn:Hf.
    + destruct (Z.ltb_spec 0 x) as [Hx|Hx], (Z.eqb_spec a x) as [Ha|Ha]; simpl;
        rewrite IH; case_bool_decide; try lia; by rewrite -?app_assoc.
    + rewrite IH. by rewrite -app_assoc.
Qed.

Lemma compare_files_spec d fs :
  compare_files d fs = (Missing d fs, SizeMismatch d fs).
Proof. apply (foldl_compare_file d fs [] []). Qed.

Lemma elem_of_Missing d fs f :
  f ∈ Missing d fs <-> f ∈ fs.*1 /\ d !! f = None.
Proof. rewrite /Missing list_elem_of_filter. tauto. Qed.

Lemma elem_of_SizeMismatch d fs f a x :
  (f, a, x) ∈ SizeMismatch d fs
  <-> (f, x) ∈ fs /\ d !! f = Some a /\ 0 < x /\ a <> x.
Proof.
  rewrite /SizeMismatch list_elem_of_omap. split.
  - intros ([g y] & Hin & Hsome). simpl in Hsome.
    destruct (d !! g) as [b|] eqn:Hg; [|done].
    case_bool_decide; [|done]. simplify_eq. tauto.
  - intros (Hin & Hf & Hx & Ha). exists (f, x). split; [done|].
    rewrite /= Hf bool_decide_true; [tauto|done].
Qed.

Lemma has_size_info_spec fs :
  has_size_info fs = true <-> exists f x, (f, x) ∈ fs /\ 0 < x.
Proof.
  rewrite /has_size_info existsb_exists. split.
  - intros ([f x] & Hin & Hx). exists f, x.
    split; [by apply list_elem_of_In|]. simpl in Hx. lia.
  - intros (f & x & Hin & Hx). exists (f, x).
    split; [by apply list_elem_of_In|]. simpl. lia.
Qed.

Lemma all_match_complete d fs :
  all_match d fs -> Missing d fs = [] /\ SizeMismatch d fs = [].
Proof.
  intros Hall. split; apply nil_iff_no_elem.
  - intros f [Hin Hnone]%elem_of_Missing.
    apply list_elem_of_fmap in Hin as ([g x] & -> & Hin).
    rewrite (Hall _ _ Hin) in Hnone. done.
  - intros [[f a] x] (Hin & Hf & Hx & Ha)%elem_of_SizeMismatch.
    rewrite (Hall _ _ Hin) in Hf. congruence.
Qed.

Lemma all_match_cons d f x fs :
  all_match d ((f, x) :: fs) <-> d !! f = Some x /\ all_match d fs.
Proof.
  rewrite /all_match. split.
  - intros H. split; [apply H; left|]. intros g y Hin. apply H. by right.
  - intros [Hf H] g y [Heq|Hin]%elem_of_cons; [by simplify_eq|by apply H].
Qed.

Lemma all_match_delete d fs f :
  f ∉ fs.*1 -> all_match d fs -> all_match (delete f d) fs.
Proof.
  intros Hf Hall g y Hin. rewrite lookup_delete_ne; [|by apply Hall].
  intros ->. apply Hf, list_elem_of_fmap. by exists (g, y).
Qed.

Lemma all_match_insert d fs f s :
  f ∉ fs.*1 -> all_match d fs -> all_match (<[f:=s]> d) fs.
Proof.
  intros Hf Hall g y Hin. rewrite lookup_insert_ne; [|by apply Hall].
  intros ->. apply Hf, list_elem_of_fmap. by exists (g, y).
Qed.

(** Dictionary keys are distinct: a key has one declared size. *)
Lemma NoDup_keys_size fs f x y :
  NoDup fs.*1 -> (f, x) ∈ fs -> (f, y) ∈ fs -> x = y.
Proof.
  induction fs as [|[g z] fs IH]; intros Hnd Hx Hy.
  - by apply elem_of_nil in Hx.
  - apply NoDup_cons in Hnd as [Hg Hnd].
    assert (forall v, (g, v) ∈ fs -> False) as Hfresh.
    { intros v Hv. apply Hg, list_elem_of_fmap. by exists (g, v). }
    apply elem_of_cons in Hx as [Hx|Hx], Hy as [Hy|Hy]; simplify_eq;
      first [done | by destruct (Hfresh _ Hx) | by destruct (Hfresh _ Hy) | by apply IH].
Qed.

(** Removing one file of a complete directory: it is the only missing
    one, and nothing is mismatched. *)
Lemma compare_files_delete d fs f :
  NoDup fs.*1 -> all_match d fs -> f ∈ fs.*1 ->
  compare_files (delete f d) fs = ([f], []).
Proof.
  rewrite compare_files_spec.
  induction fs as [|[g x] fs IH]; intros Hnd Hall Hin.
  - by apply elem_of_nil in Hin.
  - apply NoDup_cons in Hnd as [Hg Hnd].
    apply all_match_cons in Hall as [Hgx Hall].
    rewrite Missing_cons SizeMismatch_cons.
    destruct (decide (g = f)) as [->|Hne].
    + rewrite lookup_delete_eq.
      by destruct (all_match_complete _ _ (all_match_delete d fs f Hg Hall))
        as [-> ->].
    + rewrite lookup_delete_ne // Hgx.
      case_bool_decide; [lia|].
      apply elem_of_cons in Hin as [Heq|Hin]; [by simplify_eq|].
      by apply IH.
Qed.

(** Changing the size of one file of a complete directory: it is the only
    mismatched one when its declared size is positive. *)
Lemma compare_files_insert d fs f s s' :
  NoDup fs.*1 -> all_match d fs -> (f, s) ∈ fs -> s' <> s -> 0 < s ->
  compare_files (<[f:=s']> d) fs = ([], [(f, s', s)]).
Proof.
  rewrite compare_files_spec. intros Hnd Hall Hin Hs' Hs.
  induction fs as [|[g x] fs IH].
  - by apply elem_of_nil in Hin.
  - pose proof Hnd as Hnd'.
    apply NoDup_cons in Hnd as [Hg Hnd].
    apply all_match_cons in Hall as [Hgx Hall].
    rewrite Missing_cons SizeMismatch_cons.
    destruct (decide (g = f)) as [->|Hne].
    + assert (x = s) as ->.
      { eapply NoDup_keys_size; [exact Hnd'|left|done]. }
      rewrite lookup_insert_eq bool_decide_true //.
      by destruct (all_match_complete _ _ (all_match_insert d fs f s' Hg Hall))
        as [-> ->].
    + rewrite lookup_insert_ne // Hgx.
      case_bool_decide; [lia|].
      apply elem_of_cons in Hin as [Heq|Hin]; [by simplify_eq|].
      by apply IH.
Qed.

(** Past the two guards and with a non-empty index that has sizes, the
    status follows the comparison. *)
Lemma check_download_status_sized name e :
  in_registry e = true -> path_exists e = true ->
  has_size_info (file_sizes_of e) = true ->
  check_download_status name e
  = if bool_decide (compare_files (disk e) (file_sizes_of e) = ([], []))
    then integrity_then_config e else Incomplete.
Proof.
  intros Hreg Hpath Hsize. rewrite /check_download_status Hreg Hpath /=.
  destruct (file_sizes_of e) as [|item fs] eqn:Hfs; [done|].
  rewrite Hsize.
  destruct (compare_files (disk e) (item :: fs)) as [[|m ms] [|i ims]];
    by case_bool_decide.
Qed.

Lemma process_check_cases name e :
  process_check name e = Downloading \/ process_check name e = Incomplete.
Proof.
  rewrite /process_check. destruct (ps_stdout e) as [out|]; [|by right].
  destruct (contains _ out); [by left|by right].
Qed.

Lemma integrity_then_config_cases e :
  (integrity_then_config e = RetTrue
     <-> download_integrity e = true /\ is_model_installed e = true) /\
  (integrity_then_config e = NeedsConfig
     <-> download_integrity e = true /\ is_model_installed e = false) /\
  (integrity_then_config e = RetFalse <-> download_integrity e = false).
Proof.
  rewrite /integrity_then_config.
  destruct (download_integrity e), (is_model_installed e);
    intuition congruence.
Qed.

(** The shape of the function: the two guards, the empty index, and the
    file-level check in front of the integrity and configuration checks. *)
Lemma check_download_status_unfold name e :
  check_download_status name e
  = if in_registry e && path_exists e then
      match file_sizes_of e with
      | [] => process_check name e
      | _ :: _ =>
          if files_complete e then integrity_then_config e else Incomplete
      end
    else RetFalse.
Proof.
  rewrite /check_download_status /files_complete.
  destruct (in_registry e), (path_exists e); simpl; try done.
  destruct (file_sizes_of e) as [|item fs]; [done|].
  destruct (has_size_info (item :: fs)).
  - destruct (compare_files (disk e) (item :: fs)) as [[|m ms] [|i ims]];
      by case_bool_decide.
  - destruct (missing_essential (disk e)); by case_bool_decide.
Qed.

(** The structural check asks for [model_index.json] and nothing else. *)
Lemma missing_essential_nil d :
  missing_essential d = [] <-> is_Some (d !! "model_index.json"%string).
Proof.
  rewrite /missing_essential /essential_files /file_exists /=.
  case_bool_decide; naive_solver.
Qed.

Lemma has_size_info_false fs :
  has_size_info fs = false <-> forall f x, (f, x) ∈ fs -> x <= 0.
Proof.
  split.
  - intros Hno f x Hin. destruct (Z.le_gt_cases x 0) as [|Hx]; [done|].
    assert (has_size_info fs = true) as Hyes; [|congruence].
    apply has_size_info_spec. exists f, x. split; [done|lia].
  - intros Hall. destruct (has_size_info fs) eqn:Hyes; [|done].
    apply has_size_info_spec in Hyes as (f & x & Hin & Hx).
    specialize (Hall _ _ Hin). lia.
Qed.

End StatusFacts.

Section StatusClaims.
Import Status.

(** C1. When the index has size information, the comparison of lines
    103-112 classifies every expected file: the status follows the two lists
    (both empty is "All files present and complete", anything else is
    "incomplete"); the lists are empty exactly when every expected file is
    there with its declared size, a declared size of 0 matching any size;
    [missing_files] holds exactly the expected files that are absent;
    [incomplete_files] holds exactly the triples (path, actual, expected) of
    the files that are there with expected > 0 and actual <> expected.
    Removing one file of a complete directory leaves that file alone in
    [missing_files], truncating one leaves that file alone in
    [incomplete_files], and a file declared with size 0 is in no triple. *)
Theorem C1_integrity_classification (d : gmap string Z) (fs : list (string * Z)) :
  NoDup fs.*1 ->
  has_size_info fs = true ->
  (forall name e,
     in_registry e = true -> path_exists e = true ->
     repo_file_list e = Some fs -> disk e = d ->
     check_download_status name e
     = if bool_decide (compare_files d fs = ([], []))
       then integrity_then_config e else Incomplete) /\
  (compare_files d fs = ([], [])
     <-> forall f x, (f, x) ∈ fs -> exists a, d !! f = Some a /\ (0 < x -> a = x)) /\
  (all_match d fs -> compare_files d fs = ([], [])) /\
  (forall f, f ∈ (compare_files d fs).1 <-> f ∈ fs.*1 /\ d !! f = None) /\
  (forall f a x,
     (f, a, x) ∈ (compare_files d fs).2
     <-> (f, x) ∈ fs /\ d !! f = Some a /\ 0 < x /\ a <> x) /\
  (forall f,
     all_match d fs -> f ∈ fs.*1 ->
     compare_files (delete f d) fs = ([f], [])) /\
  (forall f s s',
     all_match d fs -> (f, s) ∈ fs -> 0 <= s' < s ->
     compare_files (<[f:=s']> d) fs = ([], [(f, s', s)])) /\
  (forall f a x, (f, 0) ∈ fs -> (f, a, x) ∉ (compare_files d fs).2).
Proof.
  intros Hnd Hsize. rewrite !compare_files_spec /=.
  split; [|split; [|split; [|split; [|split; [|split; [|split]]]]]].
  - intros name e Hreg Hpath Hrepo Hdisk.
    assert (file_sizes_of e = fs) as Hfs by (by rewrite /file_sizes_of Hrepo).
    rewrite check_download_status_sized ?Hfs ?Hdisk //.
    by rewrite compare_files_spec.
  - split.
    + intros [= Hm Hi] f x Hin.
      destruct (d !! f) as [a|] eqn:Hf.
      * exists a. split; [done|]. intros Hx.
        destruct (decide (a = x)) as [|Hne]; [done|].
        assert ((f, a, x) ∈ SizeMismatch d fs) as Hbad
          by by apply elem_of_SizeMismatch.
        rewrite Hi in Hbad. by apply elem_of_nil in Hbad.
      * assert (f ∈ Missing d fs) as Hbad.
        { apply elem_of_Missing. split; [|done].
          apply list_elem_of_fmap. by exists (f, x). }
        rewrite Hm in Hbad. by apply elem_of_nil in Hbad.
    + intros Hall. f_equal; apply nil_iff_no_elem.
      * intros f [Hin Hnone]%elem_of_Missing.
        apply list_elem_of_fmap in Hin as ([g x] & -> & Hin).
        destruct (Hall _ _ Hin) as (a & Ha & _). simpl in Hnone. congruence.
      * intros [[f a] x] (Hin & Hf & Hx & Hne)%elem_of_SizeMismatch.
        destruct (Hall _ _ Hin) as (b & Hb & Heq).
        specialize (Heq Hx). congruence.
  - intros Hall. by destruct (all_match_complete d fs Hall) as [-> ->].
  - intros f. apply elem_of_Missing.
  - intros f a x. apply elem_of_SizeMismatch.
  - intros f Hall Hin. by apply compare_files_delete.
  - intros f s s' Hall Hin Hs.
    apply compare_files_insert; [done|done|done|lia|lia].
  - intros f a x Hzero (Hin & _ & Hx & _)%elem_of_SizeMismatch.
    pose proof (NoDup_keys_size fs f 0 x Hnd Hzero Hin). lia.
Qed.

(** The scenario of the specification: with the index [{a.bin: 100, b.bin:
    200}] and [b.bin] removed, [b.bin] is the one missing file. *)
Lemma C1_integrity_classification_witness :
  NoDup Sample.index.*1 /\
  has_size_info Sample.index = true /\
  compare_files (delete "b.bin"%string Sample.full_disk) Sample.index
  = (["b.bin"%string], []).
Proof.
  assert (NoDup Sample.index.*1) as Hnd by compute_done.
  assert (has_size_info Sample.index = true) as Hsize by reflexivity.
  split; [done|]. split; [done|].
  destruct (C1_integrity_classification Sample.full_disk Sample.index Hnd Hsize)
    as (_ & _ & _ & _ & _ & Hremove & _).
  apply Hremove.
  - intros f x Hin.
    repeat (apply elem_of_cons in Hin as [Hin|Hin]; [by simplify_eq|]).
    by apply elem_of_nil in Hin.
  - right. left.
Defined.

(** C2, as the code has it. Size information is available exactly when some
    returned size is greater than zero. When the index is not empty and no
    returned size is greater than zero, the check falls back to the
    structural check of lines 157-172, which passes exactly when
    [model_index.json] is there (the seven component directories are printed,
    not required); the status is then the one of the integrity and
    configuration checks, and "incomplete" otherwise. An index of names with
    size 0 and a directory with [model_index.json] give a complete model. *)
Theorem C2_structural_fallback (name : string) (e : Env) :
  in_registry e = true ->
  path_exists e = true ->
  file_sizes_of e <> [] ->
  has_size_info (file_sizes_of e) = false ->
  (forall fs, has_size_info fs = true <-> exists f x, (f, x) ∈ fs /\ 0 < x) /\
  (files_complete e = true
     <-> forall f, f ∈ essential_files -> is_Some (disk e !! f)) /\
  (files_complete e = true <-> is_Some (disk e !! "model_index.json"%string)) /\
  check_download_status name e
  = (if files_complete e then integrity_then_config e else Incomplete).
Proof.
  intros Hreg Hpath Hne Hsize.
  assert (files_complete e = true <-> is_Some (disk e !! "model_index.json"%string))
    as Hcomplete.
  { rewrite /files_complete Hsize.
    destruct (file_sizes_of e); [done|].
    rewrite bool_decide_eq_true. apply missing_essential_nil. }
  split; [apply has_size_info_spec|]. split; [|split].
  - rewrite Hcomplete /essential_files. split.
    + intros H f ->%list_elem_of_singleton. done.
    + intros H. apply H. left.
  - done.
  - rewrite check_download_status_unfold Hreg Hpath /=.
    by destruct (file_sizes_of e).
Qed.

(** The gated index and a directory that holds [model_index.json] alone:
    the model is reported ready. *)
Lemma C2_structural_fallback_witness :
  check_download_status "flux.1-dev"
    (Sample.env true (Some Sample.gated_index) Sample.index_only_disk true)
  = RetTrue.
Proof.
  destruct (C2_structural_fallback "flux.1-dev"
              (Sample.env true (Some Sample.gated_index)
                 Sample.index_only_disk true))
    as (_ & _ & _ & ->); done.
Defined.

(** C2 fails as stated in two places. With an empty index no returned size
    is greater than zero and the directory holds every structural element,
    yet the structural check is not run and the model is not complete. With
    a gated index and [model_index.json] alone, none of the seven component
    directories is there, yet the model is complete. *)
Lemma C2_counterexample :
  (has_size_info [] = false /\
   (forall f, f ∈ essential_files ++ essential_dirs ->
      is_Some (Sample.structured_disk !! f)) /\
   files_complete (Sample.env true (Some []) Sample.structured_disk true) = false /\
   check_download_status "flux.1-dev"
     (Sample.env true (Some []) Sample.structured_disk true) = Incomplete) /\
  (has_size_info Sample.gated_index = false /\
   (forall f, f ∈ essential_dirs -> Sample.index_only_disk !! f = None) /\
   check_download_status "flux.1-dev"
     (Sample.env true (Some Sample.gated_index) Sample.index_only_disk true)
   = RetTrue).
Proof.
  split; (split; [done|]).
  - split; [|done]. intros f Hin.
    repeat (apply elem_of_cons in Hin as [->|Hin]; [by eexists|]).
    by apply elem_of_nil in Hin.
  - split; [|done]. intros f Hin.
    repeat (apply elem_of_cons in Hin as [->|Hin]; [done|]).
    by apply elem_of_nil in Hin.
Qed.

(** C4. When the index query raises or returns an empty mapping, the status
    check goes on (the error is caught), compares no file, does not take the
    model for complete, and answers from the process table: "downloading" or
    "incomplete". *)
Theorem C4_index_unavailable (name : string) (e : Env) :
  in_registry e = true ->
  path_exists e = true ->
  repo_file_list e = None \/ repo_file_list e = Some [] ->
  file_sizes_of e = [] /\
  compare_files (disk e) (file_sizes_of e) = ([], []) /\
  files_complete e = false /\
  check_download_status name e = process_check name e /\
  (check_download_status name e = Downloading \/
   check_download_status name e = Incomplete) /\
  check_download_status name e <> RetTrue /\
  check_download_status name e <> NeedsConfig.
Proof.
  intros Hreg Hpath Hrepo.
  assert (file_sizes_of e = []) as Hfs.
  { rewrite /file_sizes_of. by destruct Hrepo as [->| ->]. }
  assert (check_download_status name e = process_check name e) as Hstatus.
  { by rewrite check_download_status_unfold Hreg Hpath Hfs. }
  rewrite Hstatus /files_complete Hfs.
  repeat split; try done;
    destruct (process_check_cases name e) as [-> | ->]; auto; done.
Qed.

(** A query that raised, with every structural element on disk and no
    download running: "incomplete". *)
Lemma C4_index_unavailable_witness :
  check_download_status "flux.1-dev"
    (Sample.env true None Sample.structured_disk true) = Incomplete.
Proof.
  destruct (C4_index_unavailable "flux.1-dev"
              (Sample.env true None Sample.structured_disk true))
    as (_ & _ & _ & -> & _); [done|done|by left|done].
Defined.

(** C6, as the code has it. The status is "needs_config" exactly when the
    name is in the model registry, the directory exists, the files pass the
    file-level check and the integrity check, and [is_model_installed] says
    no; it is [True] exactly when all of these hold and [is_model_installed]
    says yes. A name the model registry does not hold gets [False], whatever
    is on disk. *)
Theorem C6_needs_config (name : string) (e : Env) :
  (check_download_status name e = NeedsConfig
     <-> in_registry e = true /\ path_exists e = true /\
         files_complete e = true /\ download_integrity e = true /\
         is_model_installed e = false) /\
  (check_download_status name e = RetTrue
     <-> in_registry e = true /\ path_exists e = true /\
         files_complete e = true /\ download_integrity e = true /\
         is_model_installed e = true) /\
  (in_registry e = false -> check_download_status name e = RetFalse).
Proof.
  rewrite check_download_status_unfold /files_complete.
  destruct (integrity_then_config_cases e) as (Htrue & Hconfig & Hfalse).
  destruct (process_check_cases name e) as [Hp|Hp].
  all: destruct (in_registry e), (path_exists e); simpl.
  all: destruct (file_sizes_of e) as [|item fs]; rewrite ?Hp.
  all: try (split; [|split]; intuition congruence).
  all: destruct (if has_size_info (item :: fs) then _ else _).
  all: split; [|split]; intuition congruence.
Qed.

(** A registered model, complete on disk, that [is_model_installed] does not
    know: "needs_config". *)
Lemma C6_needs_config_witness :
  check_download_status "flux.1-dev"
    (Sample.env true (Some Sample.index) Sample.full_disk false) = NeedsConfig.
Proof.
  destruct (C6_needs_config "flux.1-dev"
              (Sample.env true (Some Sample.index) Sample.full_disk false))
    as ([_ Hconfig] & _).
  by apply Hconfig.
Defined.

(** C6 fails as stated: a name that is not in the model registry, with every
    file on disk at its declared size and a passing integrity check, gets
    [False] and not "needs_config". *)
Lemma C6_counterexample :
  in_registry (Sample.env false (Some Sample.index) Sample.full_disk false) = false /\
  files_complete (Sample.env false (Some Sample.index) Sample.full_disk false) = true /\
  download_integrity (Sample.env false (Some Sample.index) Sample.full_disk false) = true /\
  check_download_status "flux.1-dev"
    (Sample.env false (Some Sample.index) Sample.full_disk false) = RetFalse /\
  check_download_status "flux.1-dev"
    (Sample.env false (Some Sample.index) Sample.full_disk false) <> NeedsConfig.
Proof. repeat split; done. Qed.

End StatusClaims.

(** ** The download progress monitor *)

Section MonitorFacts.
Import Monitor.

Lemma Qgt_bool_true (a b : Q) : Qgt_bool a b = true <-> (b < a)%Q.
Proof.
  rewrite /Qgt_bool negb_true_iff -not_true_iff_false Qle_bool_iff.
  split; [apply Qnot_le_lt|apply Qlt_not_le].
Qed.

Lemma Qgt_bool_false (a b : Q) : Qgt_bool a b = false <-> (a <= b)%Q.
Proof. by rewrite /Qgt_bool negb_false_iff Qle_bool_iff. Qed.

(** A division by a positive number does not raise. *)
Lemma py_truediv_pos (a b : Q) : (0 < b)%Q -> py_truediv a b = Some (a / b)%Q.
Proof.
  intros Hb. rewrite /py_truediv.
  destruct (Qeq_bool b 0) eqn:Heq; [|done].
  apply Qeq_bool_iff in Heq. rewrite Heq in Hb. by apply Qlt_irrefl in Hb.
Qed.

Lemma total_seconds_pos (us : Z) : (0 < total_seconds us)%Q <-> 0 < us.
Proof. rewrite /total_seconds /Qlt /=. lia. Qed.

(** [calculate_speed] by cases: a quotient when time has passed and the
    last size is positive, the number 0 otherwise. *)
Lemma calculate_speed_cases (m : State) (now cur : Z) :
  (last_check_time m < now /\ 0 < last_size m /\
   calculate_speed m now cur
   = Some (inject_Z (cur - last_size m) / total_seconds (now - last_check_time m))%Q)
  \/
  ((now <= last_check_time m \/ last_size m <= 0) /\
   calculate_speed m now cur = Some 0%Q).
Proof.
  rewrite /calculate_speed.
  destruct (Qgt_bool _ 0) eqn:Ht.
  - apply Qgt_bool_true in Ht. apply (proj1 (total_seconds_pos _)) in Ht.
    destruct (Z.ltb_spec 0 (last_size m)) as [Hs|Hs]; simpl.
    + left. split; [lia|]. split; [done|].
      apply py_truediv_pos. apply (proj2 (total_seconds_pos _)). lia.
    + right. split; [lia|done].
  - right. split; [|done]. left.
    apply Qgt_bool_false in Ht.
    destruct (Z.le_gt_cases now (last_check_time m)) as [|Hlt]; [done|].
    assert (0 < total_seconds (now - last_check_time m))%Q as Hpos
      by (apply (proj2 (total_seconds_pos _)); lia).
    by destruct (Qlt_not_le _ _ Hpos).
Qed.

Lemma calculate_speed_total (m : State) (now cur : Z) :
  exists speed, calculate_speed m now cur = Some speed.
Proof.
  destruct (calculate_speed_cases m now cur) as [(_ & _ & ->)|(_ & ->)];
    by eexists.
Qed.

Lemma estimate_remaining_time_cases (cur : Z) (speed : Q) (target : option Z) :
  ((speed <= 0)%Q /\ estimate_remaining_time cur speed target = Some Unknown)
  \/
  ((0 < speed)%Q /\
   estimate_remaining_time cur speed target
   = Some (FormatTime
             (inject_Z (Z.max 0 (default flux_dev_size target - cur)) / speed)%Q)).
Proof.
  rewrite /estimate_remaining_time.
  destruct (Qle_bool speed 0) eqn:Hle.
  - left. split; [by apply Qle_bool_iff|done].
  - right.
    assert (0 < speed)%Q as Hpos.
    { apply Qnot_le_lt. intros H%Qle_bool_iff. congruence. }
    split; [done|]. by rewrite py_truediv_pos.
Qed.

Lemma display_progress_total (m : State) (o : Obs) :
  exists shown,
    display_progress m o
    = Some (shown,
            {| start_time := start_time m;
               last_size := current_size o;
               last_check_time := now_check o;
               size_history :=
                 push_history (size_history m) (now_history o, current_size o) |}).
Proof.
  rewrite /display_progress.
  destruct (calculate_speed_total m (now_speed o) (current_size o)) as [speed ->].
  assert (exists eta,
            (if Qgt_bool speed 0
             then option_map Some
                    (estimate_remaining_time (current_size o) speed None)
             else Some None) = Some eta) as [eta ->].
  { destruct (Qgt_bool speed 0); [|by eexists].
    destruct (estimate_remaining_time_cases (current_size o) speed None)
      as [[_ ->]|[_ ->]]; by eexists. }
  assert (exists progress,
            (if (0 <? current_size o)%Z
             then option_map Some
                    (py_truediv (inject_Z (current_size o))
                                (inject_Z flux_dev_size))
             else Some None) = Some progress) as [progress ->].
  { destruct (0 <? current_size o)%Z; [|by eexists].
    rewrite py_truediv_pos; [done|by eexists]. }
  by eexists.
Qed.

Lemma run_app (m : State) (obs1 obs2 : list Obs) :
  run m (obs1 ++ obs2)
  = match run m obs1 with
    | Some m' => run m' obs2
    | None => None
    end.
Proof.
  revert m. induction obs1 as [|o obs1 IH]; intros m; [done|].
  simpl. destruct (display_progress m o) as [[shown m']|]; [apply IH|done].
Qed.

(** The history after a display: the new sample last, the oldest sample
    dropped once there are more than ten. *)
Lemma push_history_drop (h : list (Z * Z)) (sample : Z * Z) :
  (length h <= 10)%nat ->
  push_history h sample = drop (length (h ++ [sample]) - 10)%nat (h ++ [sample]).
Proof.
  intros Hlen. rewrite /push_history length_app /=.
  destruct (Nat.ltb_spec 10 (length h + 1)) as [Hgt|Hle].
  - replace (length h + 1 - 10)%nat with 1%nat by lia.
    by destruct (h ++ [sample]).
  - replace (length h + 1 - 10)%nat with 0%nat by lia. done.
Qed.

Lemma push_history_length (h : list (Z * Z)) (sample : Z * Z) :
  (length h <= 10)%nat ->
  (1 <= length (push_history h sample) <= 10)%nat.
Proof.
  intros Hlen. rewrite push_history_drop // length_drop length_app /=. lia.
Qed.

End MonitorFacts.

Section MonitorClaims.
Import Monitor.

(** Every run of the monitor goes through: no display raises. The state it
    reaches holds the last ten samples, and holds no sample (and the last
    size 0) exactly when nothing was displayed yet. *)
Lemma run_reaches (start check : Z) (obs : list Obs) :
  exists m,
    run (init start check) obs = Some m /\
    size_history m = drop (length obs - 10)%nat (samples obs) /\
    (obs = [] -> last_size m = 0) /\
    (size_history m = [] -> obs = []).
Proof.
  induction obs as [|o obs IH] using rev_ind.
  - by exists (init start check).
  - destruct IH as (m & Hrun & Hhist & _ & _).
    destruct (display_progress_total m o) as [shown Hstep].
    eexists. rewrite run_app Hrun /= Hstep /=.
    split; [done|].
    assert (length (size_history m) <= 10)%nat as Hlen.
    { rewrite Hhist length_drop /samples length_map. lia. }
    split; [|split].
    + rewrite push_history_drop // Hhist /samples map_app /=.
      rewrite -drop_app_le; [rewrite length_map; lia|].
      rewrite drop_drop. f_equal.
      rewrite !length_drop !length_app !length_map /=. lia.
    + intros Hnil. by destruct obs.
    + intros Hnil. pose proof (push_history_length (size_history m)
                                 (now_history o, current_size o) Hlen) as Hpos.
      simpl in Hnil. rewrite Hnil /= in Hpos. lia.
Qed.

(** C5, as the code has it. No display of a run divides by zero. Before the
    first sample, and when no time has passed since the last sample,
    [calculate_speed] returns 0 without dividing and neither a speed nor an
    ETA is shown. [estimate_remaining_time] answers "Unknown" whenever the
    speed is zero or less, and never raises. When no target size is given
    and the speed is positive it does not answer "Unknown": it measures the
    remaining size against the 23GB estimate. *)
Theorem C5_no_division_by_zero (start check : Z) (obs : list Obs) (o : Obs) :
  exists m shown m',
    run (init start check) obs = Some m /\
    display_progress m o = Some (shown, m') /\
    (size_history m = [] \/ now_speed o = last_check_time m ->
       calculate_speed m (now_speed o) (current_size o) = Some 0%Q /\
       shown_speed shown = None /\ shown_eta shown = None) /\
    (forall cur speed target,
       (speed <= 0)%Q -> estimate_remaining_time cur speed target = Some Unknown) /\
    (forall cur speed target,
       exists eta, estimate_remaining_time cur speed target = Some eta) /\
    (forall cur speed,
       (0 < speed)%Q ->
       estimate_remaining_time cur speed None
       = Some (FormatTime (inject_Z (Z.max 0 (flux_dev_size - cur)) / speed)%Q)).
Proof.
  destruct (run_reaches start check obs) as (m & Hrun & _ & Hfirst & Hnil).
  destruct (display_progress_total m o) as [shown Hstep].
  exists m, shown. eexists. split; [done|]. split; [exact Hstep|].
  split; [|split; [|split]].
  - intros Hno.
    assert (calculate_speed m (now_speed o) (current_size o) = Some 0%Q) as Hspeed.
    { destruct (calculate_speed_cases m (now_speed o) (current_size o))
        as [(Ht & Hs & _)|[_ ->]]; [|done].
      destruct Hno as [Hno|Hno]; [|lia].
      rewrite (Hfirst (Hnil Hno)) in Hs. lia. }
    split; [done|].
    move: Hstep. rewrite /display_progress Hspeed /=.
    destruct (if (0 <? current_size o)%Z then _ else _); [|done].
    by intros [= <-].
  - intros cur speed target Hle.
    destruct (estimate_remaining_time_cases cur speed target)
      as [[_ ->]|[Hpos _]]; [done|].
    by destruct (Qlt_not_le _ _ Hpos).
  - intros cur speed target.
    destruct (estimate_remaining_time_cases cur speed target)
      as [[_ ->]|[_ ->]]; by eexists.
  - intros cur speed Hpos.
    destruct (estimate_remaining_time_cases cur speed None)
      as [[Hle _]|[_ ->]]; [|done].
    by destruct (Qlt_not_le _ _ Hpos).
Qed.

(** A first display that finds 1000 bytes: no speed and no ETA are shown. *)
Lemma C5_no_division_by_zero_witness :
  exists m shown m',
    run (init 0 0) [] = Some m /\
    display_progress m
      {| now_speed := 5000000; current_size := 1000;
         now_check := 5000001; now_history := 5000002 |} = Some (shown, m') /\
    shown_speed shown = None /\ shown_eta shown = None.
Proof.
  destruct (C5_no_division_by_zero 0 0 []
              {| now_speed := 5000000; current_size := 1000;
                 now_check := 5000001; now_history := 5000002 |})
    as (m & shown & m' & Hrun & Hstep & Hfirst & _).
  exists m, shown, m'. split; [done|]. split; [done|].
  injection Hrun as <-. by destruct Hfirst as (_ & ? & ?); [left|].
Defined.

(** C5 fails as stated: with no target size the remaining size is not known,
    and a positive speed still gets an ETA, measured against 23GB. *)
Lemma C5_counterexample :
  estimate_remaining_time 0 1 None
  = Some (FormatTime (inject_Z flux_dev_size / 1)%Q) /\
  estimate_remaining_time 0 1 None <> Some Unknown.
Proof. split; [reflexivity|discriminate]. Qed.

(** C10. After every display the history holds at most ten samples; a
    eleventh sample pushes the oldest one out; the history is the last ten
    samples of the run (all of them when there are fewer), in the order they
    were observed. *)
Theorem C10_history_bounded (start check : Z) (obs : list Obs) :
  exists m,
    run (init start check) obs = Some m /\
    (length (size_history m) <= 10)%nat /\
    length (size_history m) = Nat.min (length obs) 10 /\
    size_history m = drop (length obs - 10)%nat (samples obs) /\
    (forall o shown m',
       display_progress m o = Some (shown, m') ->
       (length (size_history m') <= 10)%nat /\
       size_history m'
       = if bool_decide (length (size_history m) = 10%nat)
         then tail (size_history m) ++ [(now_history o, current_size o)]
         else size_history m ++ [(now_history o, current_size o)]).
Proof.
  destruct (run_reaches start check obs) as (m & Hrun & Hhist & _ & _).
  assert (length (size_history m) = Nat.min (length obs) 10) as Hlen.
  { rewrite Hhist length_drop /samples length_map. lia. }
  exists m. split; [done|]. split; [lia|]. split; [done|]. split; [done|].
  intros o shown m' Hstep.
  destruct (display_progress_total m o) as [shown' Hstep'].
  rewrite Hstep' in Hstep. injection Hstep as _ <-. simpl.
  split.
  { apply push_history_length. lia. }
  rewrite /push_history length_app /=.
  case_bool_decide as Hten.
  - rewrite Hten /=. by destruct (size_history m).
  - destruct (Nat.ltb_spec 10 (length (size_history m) + 1)); [lia|done].
Qed.

(** Twelve displays at sizes 1, 2, ..., 12: the history holds the ten
    samples of sizes 3 to 12. *)
Lemma C10_history_bounded_witness :
  exists m,
    run (init 0 0)
      (map (fun n => {| now_speed := n; current_size := n;
                        now_check := n; now_history := n |})
           [1; 2; 3; 4; 5; 6; 7; 8; 9; 10; 11; 12]) = Some m /\
    size_history m
    = [(3, 3); (4, 4); (5, 5); (6, 6); (7, 7); (8, 8); (9, 9); (10, 10);
       (11, 11); (12, 12)].
Proof.
  destruct (C10_history_bounded 0 0
              (map (fun n => {| now_speed := n; current_size := n;
                                now_check := n; now_history := n |})
                   [1; 2; 3; 4; 5; 6; 7; 8; 9; 10; 11; 12]))
    as (m & Hrun & _ & _ & Hhist & _).
  exists m. split; [done|]. by rewrite Hhist.
Defined.

End MonitorClaims.

(** ** The local inventory scans *)

Section InventoryFacts.
Import Inventory.

(** Induction on a directory tree, with the hypothesis for every entry of a
    directory. *)
Lemma Node_entries_ind (P : Node -> Prop) :
  (forall sz, P (File sz)) ->
  P Other ->
  (forall entries, Forall (fun e => P e.2) entries -> P (Dir entries)) ->
  forall n, P n.
Proof.
  intros HF HO HD.
  refine (fix IH (n : Node) : P n :=
            match n with
            | File sz => HF sz
            | Other => HO
            | Dir entries =>
                HD entries
                  ((fix IHes (es : list (string * Node))
                      : Forall (fun e => P e.2) es :=
                      match es return Forall (fun e => P e.2) es with
                      | [] => List.Forall_nil _
                      | e :: es' => List.Forall_cons _ e es' (IH e.2) (IHes es')
                      end) entries)
            end).
Qed.

Lemma rglob_node_Dir (parent : list string) (name : string)
    (entries : list (string * Node)) :
  rglob_node parent name (Dir entries)
  = (parent ++ [name], Dir entries) :: rglob_below (parent ++ [name]) entries.
Proof.
  simpl. f_equal. induction entries as [|e es IH]; [done|]. simpl. by rewrite IH.
Qed.

Lemma at_path_nil (p : list string) (n : Node) : ~ at_path [] p n.
Proof. intros H. inversion H; subst; by eapply elem_of_nil. Qed.

Lemma at_path_cons (e : string * Node) (es : list (string * Node))
    (p : list string) (n : Node) :
  at_path (e :: es) p n
  <-> (p = [e.1] /\ n = e.2)
      \/ (exists sub q, e.2 = Dir sub /\ p = e.1 :: q /\ at_path sub q n)
      \/ at_path es p n.
Proof.
  split.
  - intros H. inversion H as [? name ? Hin|? name sub q ? Hin Hsub]; subst.
    + apply elem_of_cons in Hin as [<-|Hin]; [by left|].
      right. right. by constructor.
    + apply elem_of_cons in Hin as [<-|Hin].
      * right. left. by exists sub, q.
      * right. right. by econstructor.
  - intros [[-> ->]|[(sub & q & Hsub & -> & Hq)|H]].
    + constructor. destruct e. left.
    + econstructor; [|done]. destruct e as [name x]. simpl in *. subst. left.
    + inversion H; subst; [constructor|econstructor]; try done; by right.
Qed.

(** [rglob] yields exactly the entries that are somewhere below the root,
    each with its relative path. *)
Lemma elem_of_rglob_node (n : Node) :
  forall parent name p x,
    (p, x) ∈ rglob_node parent name n
    <-> (p = parent ++ [name] /\ x = n)
        \/ (exists sub q,
              n = Dir sub /\ p = parent ++ name :: q /\ at_path sub q x).
Proof.
  induction n as [sz|  |entries IH] using Node_entries_ind;
    intros parent name p x.
  - rewrite /= list_elem_of_singleton. split.
    + intros [= -> ->]. by left.
    + intros [[-> ->]|(sub & q & Hsub & _)]; done.
  - rewrite /= list_elem_of_singleton. split.
    + intros [= -> ->]. by left.
    + intros [[-> ->]|(sub & q & Hsub & _)]; done.
  - rewrite rglob_node_Dir elem_of_cons.
    assert ((p, x) ∈ rglob_below (parent ++ [name]) entries
            <-> exists q, p = parent ++ name :: q /\ at_path entries q x) as ->.
    { assert (forall q, parent ++ name :: q = (parent ++ [name]) ++ q) as Hdir
        by (intros q; by rewrite -app_assoc).
      revert Hdir. generalize (parent ++ [name]). intros dir Hdir.
      assert ((exists q, p = parent ++ name :: q /\ at_path entries q x)
              <-> exists q, p = dir ++ q /\ at_path entries q x) as ->.
      { split; intros (q & -> & Hq); exists q; by rewrite Hdir. }
      clear Hdir. induction IH as [|e es He _ IHes].
      - split; [by intros ?%elem_of_nil|].
        intros (q & _ & Hq). by apply at_path_nil in Hq.
      - rewrite /= elem_of_app He IHes. split.
        + intros [[[-> ->]|(sub & q & Hsub & -> & Hq)]|(q & -> & Hq)].
          * exists [e.1]. split; [done|]. apply at_path_cons. by left.
          * exists (e.1 :: q). split; [done|].
            apply at_path_cons. right. left. by exists sub, q.
          * exists q. split; [done|]. apply at_path_cons. by right; right.
        + intros (q & -> & [[-> ->]|[(sub & q' & Hsub & -> & Hq)|Hq]]%at_path_cons).
          * left. by left.
          * left. right. by exists sub, q'.
          * right. by exists q. }
    split.
    + intros [[= -> ->]|(q & -> & Hq)]; [by left|right]. by exists entries, q.
    + intros [[-> ->]|(sub & q & [= <-] & -> & Hq)]; [by left|right]. by exists q.
Qed.

Lemma elem_of_rglob (root : list (string * Node)) (p : list string) (x : Node) :
  (p, x) ∈ rglob root <-> at_path root p x.
Proof.
  rewrite /rglob. induction root as [|e es IH].
  - split; [by intros ?%elem_of_nil|by intros ?%at_path_nil].
  - rewrite /= elem_of_app IH elem_of_rglob_node at_path_cons /=. tauto.
Qed.

End InventoryFacts.

Section InventoryClaims.
Import Inventory.

(** The regular files among the entries [rglob] yields. *)
Lemma regular_files_cons_aux (p : list string * Node) (l : list (list string * Node)) :
  omap (fun p : list string * Node =>
          match p.2 with File sz => Some (p.1, sz) | _ => None end) (p :: l)
  = match p.2 with
    | File sz => [(p.1, sz)]
    | _ => []
    end ++
    omap (fun p : list string * Node =>
            match p.2 with File sz => Some (p.1, sz) | _ => None end) l.
Proof. destruct p as [q [sz|es|]]; done. Qed.

(** The loop of the status check appends the regular files in the order of
    [rglob] and adds up their sizes. *)
Lemma foldl_local_step (l : list (list string * Node))
    (files : list (string * Z)) (size : Z) :
  foldl local_step (files, size) l
  = (files ++
       map (fun f : list string * Z => (path_str f.1, f.2))
         (omap (fun p : list string * Node =>
                  match p.2 with File sz => Some (p.1, sz) | _ => None end) l),
     size +
       sum_sizes
         (map snd
            (omap (fun p : list string * Node =>
                     match p.2 with File sz => Some (p.1, sz) | _ => None end) l))).
Proof.
  revert files size. induction l as [|[q x] l IH]; intros files size.
  - rewrite /= app_nil_r. f_equal. rewrite /sum_sizes /=. lia.
  - rewrite regular_files_cons_aux /=. destruct x as [sz|es|]; rewrite /= IH //.
    rewrite -app_assoc /= sum_sizes_cons. f_equal. lia.
Qed.

(** The loop of the monitor adds up the sizes of the regular files whose
    name does not end in [.lock]. *)
Lemma foldl_total_step (l : list (list string * Node)) (total : Z) :
  foldl total_step total l
  = total +
    sum_sizes
      (map snd
         (filter (fun f : list string * Z => is_lock f.1 = false)
            (omap (fun p : list string * Node =>
                     match p.2 with File sz => Some (p.1, sz) | _ => None end) l))).
Proof.
  revert total. induction l as [|[q x] l IH]; intros total.
  - rewrite /= /sum_sizes /=. lia.
  - rewrite regular_files_cons_aux /=.
    destruct x as [sz|es|]; rewrite /total_step /= -/total_step ?IH //.
    rewrite filter_cons /= /is_lock.
    destruct (endswith ".lock" (path_name q)); simpl.
    + done.
    + rewrite /= sum_sizes_cons. lia.
Qed.

(** C9, as the code has it. The scan of the status check lists every regular
    file below the root, lock files and partial files included, with its
    relative path and size, and its total is the sum of the listed sizes.
    The scan of the monitor returns the sum of the sizes of the regular
    files whose name does not end in [.lock], partial files included, and 0
    for a directory that does not exist. *)
Theorem C9_inventory_scan (root : list (string * Node)) :
  (forall p sz, (p, sz) ∈ regular_files root <-> at_path root p (File sz)) /\
  (scan_local root).1
  = map (fun f : list string * Z => (path_str f.1, f.2)) (regular_files root) /\
  (scan_local root).2 = sum_sizes (map snd (regular_files root)) /\
  length (scan_local root).1 = length (regular_files root) /\
  get_total_downloaded_size (Some root) = non_lock_total root /\
  get_total_downloaded_size None = 0.
Proof.
  rewrite /scan_local foldl_local_step /= /get_total_downloaded_size
    foldl_total_step /non_lock_total /regular_files.
  split; [|split; [done|split; [done|split; [|split; [lia|done]]]]].
  - intros p sz. rewrite -elem_of_rglob list_elem_of_omap. split.
    + intros ([q x] & Hin & Hfile). destruct x; by simplify_eq/=.
    + intros Hin. by exists (p, File sz).
  - by rewrite length_map.
Qed.

(** The download cache of a model that is being fetched. *)
Lemma C9_inventory_scan_witness :
  (scan_local Sample.downloading_tree).2 = 5550 /\
  get_total_downloaded_size (Some Sample.downloading_tree) = 5543.
Proof.
  destruct (C9_inventory_scan Sample.downloading_tree)
    as (_ & _ & -> & _ & -> & _).
  done.
Defined.

(** C9 fails as stated. The scan of the status check counts the lock file:
    three files and 5550 bytes, where the regular files that are not lock
    files are two and weigh 5543 bytes. The scan of the monitor leaves the
    lock file out and counts the partial file: without it the total would
    be 543. *)
Lemma C9_counterexample :
  scan_local Sample.downloading_tree
  = ([("model_index.json"%string, 543);
      (".cache/download/vae.safetensors.lock"%string, 7);
      (".cache/download/vae.safetensors.incomplete"%string, 5000)], 5550) /\
  non_lock_total Sample.downloading_tree = 5543 /\
  (scan_local Sample.downloading_tree).2 <> non_lock_total Sample.downloading_tree /\
  get_total_downloaded_size (Some Sample.downloading_tree) = 5543 /\
  get_total_downloaded_size (Some Sample.downloading_tree) <> 543.
Proof. repeat split; done. Qed.

End InventoryClaims.

(** ** The model registry *)

Section RegistryFacts.
Import Registry.

Lemma tier_map_set_tier_eq (t : Tier) (m : gmap string ModelDescriptor) (r : Tiers) :
  tier_map t (set_tier t m r) = m.
Proof. by destruct t. Qed.

Lemma tier_map_set_tier_ne (t t' : Tier) (m : gmap string ModelDescriptor)
    (r : Tiers) :
  t <> t' -> tier_map t' (set_tier t m r) = tier_map t' r.
Proof. by destruct t, t'. Qed.

Lemma set_tier_tier_map (t : Tier) (r : Tiers) : set_tier t (tier_map t r) r = r.
Proof. by destruct t, r. Qed.

(** The walk stops at the highest tier that holds the name. *)
Lemma resolve_precedence (r : Tiers) (name : string) :
  resolve precedence r name
  = match runtime r !! name with
    | Some d => Some (Runtime, d)
    | None =>
        match file_configured r !! name with
        | Some d => Some (FileConfigured, d)
        | None =>
            match builtin r !! name with
            | Some d => Some (Builtin, d)
            | None => None
            end
        end
    end.
Proof. done. Qed.

Lemma resolve_Some (r : Tiers) (name : string) (t : Tier) (d : ModelDescriptor) :
  resolve precedence r name = Some (t, d)
  <-> tier_map t r !! name = Some d /\
      forall t', (rank t < rank t')%nat -> tier_map t' r !! name = None.
Proof.
  rewrite resolve_precedence. split.
  - destruct (runtime r !! name) eqn:Hr,
             (file_configured r !! name) eqn:Hf,
             (builtin r !! name) eqn:Hb;
      intros [= <- <-]; (split; [done|]); intros [] Hrank; simpl in *;
      done || lia.
  - intros [Ht Hhigher].
    pose proof (Hhigher Runtime) as Hr. pose proof (Hhigher FileConfigured) as Hf.
    destruct t; simpl in *.
    + rewrite Hr; [lia|]. rewrite Hf; [lia|]. by rewrite Ht.
    + rewrite Hr; [lia|]. by rewrite Ht.
    + by rewrite Ht.
Qed.

Lemma get_None (r : Tiers) (name : string) :
  get r name = None <-> forall t, tier_map t r !! name = None.
Proof.
  rewrite /get resolve_precedence. split.
  - destruct (runtime r !! name) eqn:Hr; [done|].
    destruct (file_configured r !! name) eqn:Hf; [done|].
    destruct (builtin r !! name) eqn:Hb; [done|]. by intros _ [].
  - intros H. by rewrite (H Runtime) (H FileConfigured) (H Builtin).
Qed.

Lemma elem_of_all_names (r : Tiers) (name : string) :
  name ∈ all_names r <-> exists t, is_Some (tier_map t r !! name).
Proof.
  rewrite /all_names elem_of_elements !elem_of_union !elem_of_dom. split.
  - intros [[H|H]|H]; [by exists Runtime|by exists FileConfigured|by exists Builtin].
  - intros [[] H]; simpl in H; tauto.
Qed.

Lemma all_names_get (r : Tiers) (name : string) :
  name ∈ all_names r <-> is_Some (get r name).
Proof.
  rewrite elem_of_all_names -not_eq_None_Some get_None. split.
  - intros [t [d Ht]] Hnone. rewrite Hnone in Ht. done.
  - intros Hsome.
    destruct (runtime r !! name) eqn:Hr; [by exists Runtime; rewrite /= Hr|].
    destruct (file_configured r !! name) eqn:Hf;
      [by exists FileConfigured; rewrite /= Hf|].
    destruct (builtin r !! name) eqn:Hb; [by exists Builtin; rewrite /= Hb|].
    destruct Hsome. by intros [].
Qed.

End RegistryFacts.

Section RegistryClaims.
Import Registry.

(** C3. A name held by several tiers resolves to the descriptor of the
    highest one: an entry of the file-configured tier hides the built-in
    one, and an entry of the runtime tier hides both. Seen through the
    operations: adding a descriptor at the file-configured tier makes [get]
    return it unless the runtime tier holds the name, and adding one at
    the runtime tier makes [get] return that one, with its [repo_id]. *)
Theorem C3_registry_precedence (r : Tiers) (name : string) :
  (forall t d,
     tier_map t r !! name = Some d ->
     (forall t', (rank t < rank t')%nat -> tier_map t' r !! name = None) ->
     get r name = Some d) /\
  (forall db df,
     builtin r !! name = Some db -> file_configured r !! name = Some df ->
     runtime r !! name = None -> get r name = Some df) /\
  (forall dr, runtime r !! name = Some dr -> get r name = Some dr) /\
  (forall df dr,
     has_required_fields df = true -> has_required_fields dr = true ->
     (runtime r !! name = None ->
      get (add name df FileConfigured r).2 name = Some df) /\
     get (add name dr Runtime (add name df FileConfigured r).2).2 name = Some dr /\
     (repo_id <$> get (add name dr Runtime (add name df FileConfigured r).2).2 name)
     = Some (repo_id dr)).
Proof.
  split; [|split; [|split]].
  - intros t d Ht Hhigher.
    by rewrite /get (proj2 (resolve_Some r name t d) (conj Ht Hhigher)).
  - intros db df _ Hf Hr. by rewrite /get resolve_precedence Hr Hf.
  - intros dr Hr. by rewrite /get resolve_precedence Hr.
  - intros df dr Hdf Hdr. rewrite /add Hdf Hdr /=.
    rewrite /get !resolve_precedence /= !lookup_insert_eq /=.
    split; [|done]. by intros ->.
Qed.

(** The built-in [flux.1-dev] overridden from a configuration file, then at
    run time. *)
Lemma C3_registry_precedence_witness :
  get (add "flux.1-dev" (Sample.descriptor "mirror/FLUX.1-dev" "flux")
         FileConfigured Sample.builtin_registry).2 "flux.1-dev"
  = Some (Sample.descriptor "mirror/FLUX.1-dev" "flux") /\
  (repo_id <$>
     get (add "flux.1-dev" (Sample.descriptor "local/FLUX.1-dev" "flux") Runtime
            (add "flux.1-dev" (Sample.descriptor "mirror/FLUX.1-dev" "flux")
               FileConfigured Sample.builtin_registry).2).2 "flux.1-dev")
  = Some (Some "local/FLUX.1-dev"%string).
Proof.
  destruct (C3_registry_precedence Sample.builtin_registry "flux.1-dev")
    as (_ & _ & _ & Hadd).
  destruct (Hadd (Sample.descriptor "mirror/FLUX.1-dev" "flux")
                 (Sample.descriptor "local/FLUX.1-dev" "flux"))
    as (Hfile & _ & Hrun); [done|done|].
  split; [by apply Hfile|exact Hrun].
Defined.

(** C8. For a name that no tier holds, [add] followed by [remove] brings the
    registry back to where it was: the add succeeds and makes the name
    visible, the remove succeeds, and afterwards [get] reports not found and
    the name is not listed. [remove] deletes the entry of the tier that
    supplies the visible one and leaves the other tiers as they are, and it
    returns false, changing nothing, when no tier holds the name. *)
Theorem C8_add_remove (r : Tiers) (name : string) (d : ModelDescriptor) (t : Tier) :
  has_required_fields d = true ->
  get r name = None ->
  (add name d t r).1 = true /\
  get (add name d t r).2 name = Some d /\
  name ∈ all_names (add name d t r).2 /\
  (remove name (add name d t r).2).1 = true /\
  get (remove name (add name d t r).2).2 name = None /\
  (name ∉ all_names (remove name (add name d t r).2).2) /\
  (remove name (add name d t r).2).2 = r /\
  remove name r = (false, r) /\
  (forall r' t' d',
     resolve precedence r' name = Some (t', d') ->
     (remove name r').1 = true /\
     tier_map t' (remove name r').2 = delete name (tier_map t' r') /\
     forall t'', t' <> t'' -> tier_map t'' (remove name r').2 = tier_map t'' r').
Proof.
  intros Hvalid Hnone. pose proof (proj1 (get_None r name) Hnone) as Hall.
  assert (forall r' t' d',
            resolve precedence r' name = Some (t', d') ->
            (remove name r').1 = true /\
            tier_map t' (remove name r').2 = delete name (tier_map t' r') /\
            forall t'', t' <> t'' ->
                        tier_map t'' (remove name r').2 = tier_map t'' r')
    as Hsupplier.
  { intros r' t' d' Hres'. rewrite /remove Hres' /=.
    split; [done|]. split; [apply tier_map_set_tier_eq|].
    intros t'' Hne. by apply tier_map_set_tier_ne. }
  rewrite /add Hvalid /=.
  assert (resolve precedence (set_tier t (<[name:=d]> (tier_map t r)) r) name
          = Some (t, d)) as Hres.
  { apply resolve_Some. rewrite tier_map_set_tier_eq lookup_insert_eq.
    split; [done|]. intros t' Hrank.
    rewrite tier_map_set_tier_ne; [by intros ->; lia|]. apply Hall. }
  assert (remove name (set_tier t (<[name:=d]> (tier_map t r)) r) = (true, r))
    as Hrem.
  { rewrite /remove Hres tier_map_set_tier_eq delete_insert_id; [apply Hall|].
    f_equal. destruct t, r; done. }
  rewrite Hrem /=.
  split; [done|]. split; [by rewrite /get Hres|].
  split; [apply all_names_get; by rewrite /get Hres|].
  split; [done|]. split; [done|].
  split; [rewrite all_names_get Hnone; by intros [? ?]|].
  split; [done|]. split.
  - rewrite /remove. move: Hnone. rewrite /get.
    by destruct (resolve precedence r name) as [[? ?]|].
  - exact Hsupplier.
Qed.

(** The scenario of the specification: [add("m", {repo_id: "org/m",
    model_type: "x"})], then [remove("m")]. *)
Lemma C8_add_remove_witness :
  get (remove "m" (add "m" (Sample.descriptor "org/m" "x") Runtime
                     Sample.builtin_registry).2).2 "m" = None.
Proof.
  destruct (C8_add_remove Sample.builtin_registry "m"
              (Sample.descriptor "org/m" "x") Runtime)
    as (_ & _ & _ & _ & Hget & _); done.
Defined.

End RegistryClaims.

(** ** The download orchestrator *)

Section OrchestratorFacts.
Import Orchestrator.

Lemma total_bytes_insert (d : gmap string Z) (f : string) (v : Z) :
  total_bytes (<[f:=v]> d) = total_bytes d - default 0 (d !! f) + v.
Proof.
  assert (forall m : gmap string Z, forall (g : string) (x : Z),
            m !! g = None -> total_bytes (<[g:=x]> m) = x + total_bytes m)
    as Hfresh.
  { intros m g x Hg. rewrite /total_bytes map_fold_insert_L //. intros. lia. }
  destruct (d !! f) as [x|] eqn:Hf; simpl.
  - rewrite -insert_delete_eq Hfresh; [by rewrite lookup_delete_eq|].
    rewrite {2}/total_bytes (map_fold_delete_L _ _ f x d) //; [intros; lia|].
    rewrite -/(total_bytes (delete f d)). lia.
  - rewrite Hfresh //. lia.
Qed.

(** No event of a run takes bytes away. *)
Lemma step_total_bytes (r r' : Run) (ev : Event) :
  step r ev = Some r' -> total_bytes (files r) <= total_bytes (files r').
Proof.
  rewrite /step.
  destruct (phase r), ev as [| |f k| | |]; try done;
    try (intros [= <-]; simpl; lia).
  destruct (Z.ltb_spec 0 k) as [Hk|Hk]; [|done].
  intros [= <-]. rewrite /= total_bytes_insert. lia.
Qed.

Lemma trace_total_bytes (evs : list Event) (r r' : Run) :
  r' ∈ trace r evs -> total_bytes (files r) <= total_bytes (files r').
Proof.
  revert r. induction evs as [|ev evs IH]; intros r.
  - intros ->%list_elem_of_singleton. lia.
  - rewrite /= elem_of_cons. intros [->|Hin]; [lia|].
    destruct (step r ev) as [r1|] eqn:Hstep; [|by apply elem_of_nil in Hin].
    pose proof (step_total_bytes _ _ _ Hstep). specialize (IH _ Hin). lia.
Qed.

(** The states from position [i] on are the run that starts at the state at
    position [i]. *)
Lemma trace_drop (evs : list Event) (r ri : Run) (i : nat) :
  trace r evs !! i = Some ri ->
  drop i (trace r evs) = trace ri (drop i evs).
Proof.
  revert r i. induction evs as [|ev evs IH]; intros r [|i]; simpl.
  - by intros [= ->].
  - done.
  - by intros [= ->].
  - destruct (step r ev) as [r1|] eqn:Hstep; [|done]. apply IH.
Qed.

(** With [force] the files are wiped before the run starts. *)
Example install_force_wipes :
  total_bytes Sample.full_disk = 300 /\
  total_bytes (files (install true Sample.full_disk)) = 0.
Proof. done. Qed.

End OrchestratorFacts.

Section OrchestratorClaims.
Import Orchestrator.

(** C7. During a run that [install] starts without [force], the bytes on
    disk never decrease from one state to a later one, and so never drop
    below the bytes that were there when the run started. *)
Theorem C7_monotonic_bytes (d : gmap string Z) (evs : list Event) :
  files (install false d) = d /\
  (forall r,
     r ∈ trace (install false d) evs ->
     total_bytes d <= total_bytes (files r)) /\
  (forall i j ri rj,
     (i <= j)%nat ->
     trace (install false d) evs !! i = Some ri ->
     trace (install false d) evs !! j = Some rj ->
     total_bytes (files ri) <= total_bytes (files rj)).
Proof.
  split; [done|]. split.
  - intros r Hin. by apply trace_total_bytes in Hin.
  - intros i j ri rj Hij Hi Hj.
    apply (trace_total_bytes (drop i evs)).
    rewrite -(trace_drop _ _ _ _ Hi).
    apply list_elem_of_lookup. exists (j - i)%nat.
    rewrite lookup_drop -Hj. f_equal. lia.
Qed.

(** A directory with 100 bytes of [a.bin] and all of [b.bin]: the run
    resumes [a.bin], and is killed before it ends. *)
Lemma C7_monotonic_bytes_witness :
  Forall (fun r => 300 <= total_bytes (files r))
    (trace (install false Sample.full_disk)
       [Request; Start; Chunk "a.bin" 50; Chunk "c.bin" 10; Kill]).
Proof.
  apply Forall_forall. intros r Hin.
  destruct (C7_monotonic_bytes Sample.full_disk
              [Request; Start; Chunk "a.bin" 50; Chunk "c.bin" 10; Kill])
    as (_ & Hfloor & _).
  by apply Hfloor in Hin.
Defined.

End OrchestratorClaims.

(** * Further properties *)

(** ** Strings *)

Section StringFacts.

Lemma string_app_cons (c : Ascii.ascii) (s t : string) :
  String c s +:+ t = String c (s +:+ t).
Proof. done. Qed.

Lemma string_app_nil_l (t : string) : "" +:+ t = t.
Proof. done. Qed.

Lemma string_app_nil_r (s : string) : s +:+ "" = s.
Proof. induction s as [|c s IH]; [done|]. by rewrite string_app_cons IH. Qed.

Lemma string_app_assoc (a b c : string) : (a +:+ b) +:+ c = a +:+ (b +:+ c).
Proof. induction a as [|x a IH]; [done|]. by rewrite !string_app_cons IH. Qed.

Lemma string_app_length (a b : string) :
  String.length (a +:+ b) = (String.length a + String.length b)%nat.
Proof. induction a as [|x a IH]; [done|]. by rewrite string_app_cons /= IH. Qed.

(** [String.prefix a b] holds exactly when [b] starts with [a]. *)
Lemma prefix_spec (a b : string) :
  String.prefix a b = true <-> exists c, b = a +:+ c.
Proof.
  revert b. induction a as [|x a IH]; intros b.
  - split; [intros _; by exists b|intros _; by destruct b].
  - destruct b as [|y b]; simpl.
    + split; [done|]. by intros [c Hc].
    + destruct (Ascii.ascii_dec x y) as [->|Hne].
      * rewrite IH. split; intros [c Hc]; exists c;
          rewrite ?string_app_cons in Hc |- *; congruence.
      * split; [done|]. intros [c Hc]. rewrite string_app_cons in Hc. congruence.
Qed.

Lemma contains_cons (needle : string) (c : Ascii.ascii) (hay : string) :
  contains needle (String c hay)
  = String.prefix needle (String c hay) || contains needle hay.
Proof. done. Qed.

Lemma contains_nil (needle : string) :
  contains needle "" = String.prefix needle "".
Proof. by rewrite /= orb_false_r. Qed.

(** [contains needle hay] is Python's [needle in hay]: the needle occurs
    somewhere in the haystack. *)
Lemma contains_spec (needle hay : string) :
  contains needle hay = true <-> exists pre post, hay = pre +:+ needle +:+ post.
Proof.
  induction hay as [|c hay IH].
  - rewrite contains_nil prefix_spec. split.
    + intros [post Hpost]. by exists ""%string, post.
    + intros (pre & post & H). destruct pre; [by exists post|done].
  - rewrite contains_cons orb_true_iff prefix_spec IH. split.
    + intros [[post Hpost]|(pre & post & ->)].
      * by exists ""%string, post.
      * by exists (String c pre), post.
    + intros (pre & post & H). destruct pre as [|x pre].
      * left. by exists post.
      * right. rewrite string_app_cons in H. injection H as -> ->.
        by exists pre, post.
Qed.

Lemma endswith_cons (suffix : string) (c : Ascii.ascii) (s : string) :
  endswith suffix (String c s)
  = String.eqb (String c s) suffix || endswith suffix s.
Proof. done. Qed.

Lemma endswith_nil (suffix : string) :
  endswith suffix "" = String.eqb "" suffix.
Proof. by rewrite /= orb_false_r. Qed.

(** [endswith suffix s] is Python's [s.endswith(suffix)]. *)
Lemma endswith_spec (suffix s : string) :
  endswith suffix s = true <-> exists pre, s = pre +:+ suffix.
Proof.
  induction s as [|c s IH].
  - rewrite endswith_nil String.eqb_eq. split.
    + intros <-. by exists ""%string.
    + intros [pre H]. by destruct pre, suffix.
  - rewrite endswith_cons orb_true_iff String.eqb_eq IH. split.
    + intros [<-|[pre ->]]; [by exists ""%string|by exists (String c pre)].
    + intros [pre H]. destruct pre as [|x pre]; [by left|right].
      rewrite string_app_cons in H. injection H as -> ->. by exists pre.
Qed.

Lemma string_snoc_inj (a b : string) (x y : Ascii.ascii) :
  a +:+ String x "" = b +:+ String y "" -> x = y.
Proof.
  revert b. induction a as [|c a IH]; intros [|d b];
    rewrite ?string_app_cons ?string_app_nil_l; intros H.
  - congruence.
  - injection H as _ H. by destruct b.
  - injection H as _ H. by destruct a.
  - injection H as _ H. by eapply IH.
Qed.

(** A string has one last character: it cannot end with two suffixes whose
    last characters differ. *)
Lemma endswith_exclusive (s1 s2 s : string) (x y : Ascii.ascii) :
  x <> y ->
  endswith (s1 +:+ String x "") s = true ->
  endswith (s2 +:+ String y "") s = false.
Proof.
  intros Hne [pre ->]%endswith_spec.
  destruct (endswith _ _) eqn:Hends; [|done].
  apply endswith_spec in Hends as [pre' H].
  rewrite -!string_app_assoc in H. by apply string_snoc_inj in H.
Qed.

End StringFacts.

(** ** The status check: outcomes *)

Section StatusOutcomes.
Import Status StatusReport.




(** X2. The answer [False] has three causes and no other: the name is not in
    the registry, the directory does not exist, or the files passed the
    file-level check and [check_download_integrity] failed. [main] then
    prints "is not downloaded" in all three cases, also when every file is
    on disk. *)
Theorem status_false_iff (name : string) (e : Env) :
  (check_download_status name e = RetFalse
   <-> in_registry e = false \/ path_exists e = false \/
       (files_complete e = true /\ download_integrity e = false)) /\
  (main name e = NotDownloaded <-> check_download_status name e = RetFalse).
Proof.
  split.
  - rewrite check_download_status_unfold.
    destruct (integrity_then_config_cases e) as (_ & _ & Hfalse).
    destruct (process_check_cases name e) as [Hp|Hp].
    all: destruct (in_registry e), (path_exists e); simpl; try tauto.
    all: rewrite /files_complete; destruct (file_sizes_of e) as [|item fs];
      rewrite ?Hp; try (intuition congruence).
    all: destruct (if has_size_info (item :: fs) then _ else _);
      intuition congruence.
  - rewrite /main. by destruct (check_download_status name e).
Qed.

(** Every file at its declared size and a failed integrity check: "is not
    downloaded". *)
Lemma status_false_iff_witness :
  main "flux.1-dev"
    {| in_registry := true; path_exists := true;
       repo_file_list := Some Sample.index; disk := Sample.full_disk;
       download_integrity := false; is_model_installed := true;
       ps_stdout := None |} = NotDownloaded.
Proof.
  destruct (status_false_iff "flux.1-dev"
    {| in_registry := true; path_exists := true;
       repo_file_list := Some Sample.index; disk := Sample.full_disk;
       download_integrity := false; is_model_installed := true;
       ps_stdout := None |}) as [[_ Hfalse] [_ Hmain]].
  apply Hmain, Hfalse. right. right. done.
Defined.

(** X3. The process check looks for the command as a substring: while another
    model whose name starts with [name] is being pulled, [name] itself is
    reported as downloading. *)
Theorem status_downloading_prefix (name other stdout : string) (e : Env) :
  in_registry e = true ->
  path_exists e = true ->
  file_sizes_of e = [] ->
  ps_stdout e = Some stdout ->
  String.prefix name other = true ->
  contains ("ollamadiffuser pull " +:+ other) stdout = true ->
  check_download_status name e = Downloading.
Proof.
  intros Hreg Hpath Hfs Hps [rest ->]%prefix_spec
    (pre & post & ->)%contains_spec.
  rewrite check_download_status_unfold Hreg Hpath Hfs /= /process_check Hps.
  assert (contains ("ollamadiffuser pull " +:+ name)
            (pre +:+ ("ollamadiffuser pull " +:+ name +:+ rest) +:+ post) = true)
    as ->; [|done].
  apply contains_spec. exists pre, (rest +:+ post).
  by rewrite -!string_app_assoc.
Qed.

Lemma status_downloading_prefix_witness :
  check_download_status "stable-diffusion-3.5"
    {| in_registry := true; path_exists := true; repo_file_list := None;
       disk := ∅; download_integrity := true; is_model_installed := false;
       ps_stdout :=
         Some "u 7 ollamadiffuser pull stable-diffusion-3.5-medium"%string |}
  = Downloading.
Proof.
  by apply (status_downloading_prefix "stable-diffusion-3.5"
              "stable-diffusion-3.5-medium"
              "u 7 ollamadiffuser pull stable-diffusion-3.5-medium").
Defined.

End StatusOutcomes.

(** ** The status check: what the verdict depends on *)

Section StatusInvariance.
Import Status StatusReport.

Implicit Types (d : gmap string Z) (fs : list (string * Z)).




Lemma has_size_info_Permutation fs fs' :
  fs ≡ₚ fs' -> has_size_info fs = has_size_info fs'.
Proof.
  intros Hperm. apply eq_true_iff_eq. rewrite !has_size_info_spec.
  split; intros (f & x & Hin & Hx); exists f, x; (split; [|done]).
  - by rewrite -Hperm.
  - by rewrite Hperm.
Qed.

(** X5. The order in which the index lists the files does not matter: the two
    lists of the comparison are permuted with it, and the status is the
    same. *)
Theorem status_index_order (name : string) (e : Env) fs fs' :
  fs ≡ₚ fs' ->
  (compare_files (disk e) fs).1 ≡ₚ (compare_files (disk e) fs').1 /\
  (compare_files (disk e) fs).2 ≡ₚ (compare_files (disk e) fs').2 /\
  check_download_status name (with_index (Some fs) e)
  = check_download_status name (with_index (Some fs') e).
Proof.
  intros Hperm. rewrite !compare_files_spec /=.
  assert (Missing (disk e) fs ≡ₚ Missing (disk e) fs') as Hm
    by (by rewrite /Missing Hperm).
  assert (SizeMismatch (disk e) fs ≡ₚ SizeMismatch (disk e) fs') as Hs
    by (by rewrite /SizeMismatch Hperm).
  split; [done|]. split; [done|].
  rewrite /check_download_status /= /file_sizes_of /=.
  destruct (in_registry e), (path_exists e); simpl; try done.
  destruct fs as [|item fs], fs' as [|item' fs'];
    [done|by apply Permutation_nil_cons in Hperm
     |by symmetry in Hperm; apply Permutation_nil_cons in Hperm|].
  rewrite (has_size_info_Permutation _ _ Hperm) !compare_files_spec.
  destruct (has_size_info (item' :: fs')); [|done].
  destruct (Missing (disk e) (item :: fs)) as [|m ms].
  - apply Permutation_nil_l in Hm as <-.
    destruct (SizeMismatch (disk e) (item :: fs)) as [|i ims].
    + by apply Permutation_nil_l in Hs as <-.
    + destruct (SizeMismatch (disk e) (item' :: fs')); [|done].
      by apply Permutation_nil_r in Hs.
  - destruct (Missing (disk e) (item' :: fs')); [|done].
    by apply Permutation_nil_r in Hm.
Qed.

Lemma status_index_order_witness :
  check_download_status "flux.1-dev"
    (with_index (Some [("b.bin"%string, 200); ("a.bin"%string, 100)])
       (Sample.env true None Sample.full_disk true))
  = check_download_status "flux.1-dev"
      (with_index (Some Sample.index)
         (Sample.env true None Sample.full_disk true)).
Proof.
  apply (status_index_order "flux.1-dev"
           (Sample.env true None Sample.full_disk true)
           [("b.bin"%string, 200); ("a.bin"%string, 100)] Sample.index).
  apply perm_swap.
Defined.

(** X6. As files arrive in the directory the list of missing files only loses
    entries: a file once on disk is never reported missing, and the files
    still missing keep their order. *)
Theorem missing_shrinks d d' fs :
  d ⊆ d' ->
  (compare_files d' fs).1 `sublist_of` (compare_files d fs).1 /\
  (length (compare_files d' fs).1 <= length (compare_files d fs).1)%nat /\
  (forall f, is_Some (d !! f) -> f ∉ (compare_files d' fs).1).
Proof.
  intros Hsub. rewrite !compare_files_spec /=.
  assert (Missing d' fs `sublist_of` Missing d fs) as Hm.
  { induction fs as [|[f x] fs IH]; [done|].
    rewrite !Missing_cons.
    destruct (d !! f) as [a|] eqn:Hf.
    - by rewrite (lookup_weaken _ _ _ _ Hf Hsub).
    - destruct (d' !! f); [by apply sublist_cons|by apply sublist_skip]. }
  split; [done|]. split; [by apply sublist_length|].
  intros f [a Hf] [_ Hnone]%elem_of_Missing.
  rewrite (lookup_weaken _ _ _ _ Hf Hsub) in Hnone. done.
Qed.

Lemma missing_shrinks_witness :
  (compare_files Sample.full_disk Sample.index).1
  `sublist_of` (compare_files (delete "b.bin"%string Sample.full_disk) Sample.index).1.
Proof.
  apply (missing_shrinks (delete "b.bin"%string Sample.full_disk)
           Sample.full_disk Sample.index).
  apply delete_subseteq.
Defined.

End StatusInvariance.

(** ** The monitor: formatted durations *)

Section FormatTimeFacts.
Import Monitor MonitorDisplay.
Local Open Scope Q_scope.

Lemma inject_Z_lt (a b : Z) : inject_Z a < inject_Z b <-> (a < b)%Z.
Proof. rewrite /Qlt /=. lia. Qed.
Lemma inject_Z_le (a b : Z) : inject_Z a <= inject_Z b <-> (a <= b)%Z.
Proof. rewrite /Qle /=. lia. Qed.

Lemma Qfloor_spec (x : Q) : inject_Z (Qfloor x) <= x /\ x < inject_Z (Qfloor x) + 1.
Proof.
  split; [apply Qfloor_le|].
  pose proof (Qlt_floor x) as H. by rewrite inject_Z_plus in H.
Qed.

Lemma Qfloor_unique (x : Q) (k : Z) :
  inject_Z k <= x -> x < inject_Z k + 1 -> Qfloor x = k.
Proof.
  intros Hle Hlt. destruct (Qfloor_spec x) as [Hfl Hfu].
  assert (inject_Z (Qfloor x) < inject_Z (k + 1)) as H1
    by (rewrite inject_Z_plus; change (inject_Z 1) with 1; lra).
  assert (inject_Z k < inject_Z (Qfloor x + 1)) as H2
    by (rewrite inject_Z_plus; change (inject_Z 1) with 1; lra).
  apply (proj1 (inject_Z_lt _ _)) in H1. apply (proj1 (inject_Z_lt _ _)) in H2. lia.
Qed.

Lemma div_bounds (x : Q) (d : Z) :
  (0 < d)%Z ->
  inject_Z d * inject_Z (Qfloor (x / inject_Z d)) <= x /\
  x < inject_Z d * inject_Z (Qfloor (x / inject_Z d)) + inject_Z d.
Proof.
  intros Hd. assert (0 < inject_Z d) as Hq by (by apply (inject_Z_lt 0 d)).
  destruct (Qfloor_spec (x / inject_Z d)) as [Hl Hu].
  assert (x == inject_Z d * (x / inject_Z d)) as Hx.
  { field. lra. }
  assert (inject_Z d * inject_Z (Qfloor (x / inject_Z d))
          <= inject_Z d * (x / inject_Z d)) as H1 by (by apply Qmult_le_l).
  assert (inject_Z d * (x / inject_Z d)
          < inject_Z d * (inject_Z (Qfloor (x / inject_Z d)) + 1)) as H2
    by (by apply Qmult_lt_l).
  split; lra.
Qed.

Lemma Qlt_bool_true (a b : Q) : Qlt_bool a b = true <-> a < b.
Proof.
  rewrite /Qlt_bool Bool.negb_true_iff -Bool.not_true_iff_false Qle_bool_iff.
  split; [apply Qnot_le_lt|apply Qlt_not_le].
Qed.

Lemma Qlt_bool_false (a b : Q) : Qlt_bool a b = false <-> b <= a.
Proof. by rewrite /Qlt_bool Bool.negb_false_iff Qle_bool_iff. Qed.

Lemma round_half_even_near (x : Q) :
  inject_Z (round_half_even x) - (1 # 2) <= x /\
  x <= inject_Z (round_half_even x) + (1 # 2).
Proof.
  rewrite /round_half_even. destruct (Qfloor_spec x) as [Hl Hu].
  destruct (Qlt_bool (x - inject_Z (Qfloor x)) (1 # 2)) eqn:H1.
  { apply Qlt_bool_true in H1. lra. }
  apply Qlt_bool_false in H1.
  destruct (Qlt_bool (1 # 2) (x - inject_Z (Qfloor x))) eqn:H2.
  { rewrite inject_Z_plus. change (inject_Z 1) with 1. lra. }
  apply Qlt_bool_false in H2.
  destruct (Z.even (Qfloor x)); rewrite ?inject_Z_plus; change (inject_Z 1) with 1; lra.
Qed.

Lemma round_half_even_Z (k : Z) : round_half_even (inject_Z k) = k.
Proof.
  rewrite /round_half_even.
  assert (Qfloor (inject_Z k) = k) as -> by apply Qfloor_Z.
  assert (Qlt_bool (inject_Z k - inject_Z k) (1 # 2) = true) as ->; [|done].
  apply Qlt_bool_true. lra.
Qed.

Lemma round_half_even_range (x : Q) (a b : Z) :
  inject_Z a <= x -> x <= inject_Z b ->
  (a <= round_half_even x <= b)%Z.
Proof.
  intros Ha Hb. destruct (round_half_even_near x) as [Hl Hu].
  assert (inject_Z a < inject_Z (round_half_even x + 1)) as H1
    by (rewrite inject_Z_plus; change (inject_Z 1) with 1; lra).
  assert (inject_Z (round_half_even x) < inject_Z (b + 1)) as H2
    by (rewrite inject_Z_plus; change (inject_Z 1) with 1; lra).
  apply (proj1 (inject_Z_lt _ _)) in H1. apply (proj1 (inject_Z_lt _ _)) in H2. lia.
Qed.

Lemma floordiv_range (x : Q) (d a b : Z) :
  (0 < d)%Z -> inject_Z (d * a) <= x -> x < inject_Z (d * (b + 1)) ->
  exists k, py_floordiv x d = inject_Z k /\ (a <= k <= b)%Z /\
            inject_Z (d * k) <= x /\ x < inject_Z (d * k + d).
Proof.
  intros Hd Ha Hb. exists (Qfloor (x / inject_Z d)). split; [done|].
  destruct (div_bounds x d Hd) as [Hl Hu].
  rewrite -inject_Z_mult in Hl Hu. rewrite -inject_Z_plus in Hu.
  split; [|done].
  assert (inject_Z (d * a) < inject_Z (d * Qfloor (x / inject_Z d) + d)) as H1 by lra.
  assert (inject_Z (d * Qfloor (x / inject_Z d)) < inject_Z (d * (b + 1))) as H2 by lra.
  apply (proj1 (inject_Z_lt _ _)) in H1. apply (proj1 (inject_Z_lt _ _)) in H2. nia.
Qed.

(** X8. [format_time] on a duration that is not negative. Below a minute it
    prints the seconds, rounded, between 0 and 60. Below an hour it prints
    between 1 and 59 minutes and between 0 and 60 seconds, and what it
    prints is within half a second of the duration. From an hour on it
    prints at least 1 hour and between 0 and 59 minutes, and drops less
    than a minute. *)
Theorem format_time_parts (seconds : Q) :
  0 <= seconds ->
  match format_time seconds with
  | Seconds s =>
      seconds < 60 /\ (0 <= s <= 60)%Z /\
      inject_Z s - (1 # 2) <= seconds /\ seconds <= inject_Z s + (1 # 2)
  | MinutesSeconds m s =>
      60 <= seconds /\ seconds < 3600 /\ (1 <= m <= 59)%Z /\ (0 <= s <= 60)%Z /\
      inject_Z (60 * m + s) - (1 # 2) <= seconds /\
      seconds <= inject_Z (60 * m + s) + (1 # 2)
  | HoursMinutes h m =>
      3600 <= seconds /\ (1 <= h)%Z /\ (0 <= m <= 59)%Z /\
      inject_Z (3600 * h + 60 * m) <= seconds /\
      seconds < inject_Z (3600 * h + 60 * m + 60)
  end.
Proof.
  intros Hpos. rewrite /format_time.
  destruct (Qlt_bool seconds 60) eqn:H60.
  { apply Qlt_bool_true in H60. split; [done|].
    destruct (round_half_even_near seconds) as [Hl Hu].
    split; [|done]. apply round_half_even_range;
      [by change (inject_Z 0) with 0|change (inject_Z 60) with 60; lra]. }
  apply Qlt_bool_false in H60.
  destruct (Qlt_bool seconds 3600) eqn:H3600.
  { apply Qlt_bool_true in H3600.
    destruct (floordiv_range seconds 60 1 59) as (m & Hm & Hrange & Hl & Hu);
      [done|change (inject_Z (60 * 1)) with 60; lra
       |change (inject_Z (60 * (59 + 1))) with 3600; lra|].
    rewrite /py_mod Hm round_half_even_Z.
    do 3 (split; [done|]).
    rewrite inject_Z_plus inject_Z_mult in Hu. rewrite inject_Z_mult in Hl.
    change (inject_Z 60) with 60 in *.
    destruct (round_half_even_near (seconds - 60 * inject_Z m)) as [Hrl Hru].
    split.
    - apply round_half_even_range;
        [change (inject_Z 0) with 0|change (inject_Z 60) with 60]; lra.
    - rewrite inject_Z_plus inject_Z_mult. change (inject_Z 60) with 60. lra. }
  apply Qlt_bool_false in H3600. cbv zeta.
  assert (exists h, py_floordiv seconds 3600 = inject_Z h /\ (1 <= h)%Z /\
                    inject_Z (3600 * h) <= seconds /\
                    seconds < inject_Z (3600 * h + 3600))
    as (h & Hh & Hh1 & Hhl & Hhu).
  { exists (Qfloor (seconds / inject_Z 3600)). split; [done|].
    destruct (div_bounds seconds 3600) as [Hl Hu]; [done|].
    rewrite -inject_Z_mult in Hl Hu. rewrite -inject_Z_plus in Hu.
    split; [|done].
    assert (inject_Z 3600 < inject_Z (3600 * Qfloor (seconds / inject_Z 3600) + 3600))
      as H1 by (change (inject_Z 3600) with 3600 in *; lra).
    apply (proj1 (inject_Z_lt _ _)) in H1. lia. }
  rewrite /py_mod Hh round_half_even_Z.
  rewrite inject_Z_plus inject_Z_mult in Hhu. rewrite inject_Z_mult in Hhl.
  change (inject_Z 3600) with 3600 in *.
  destruct (floordiv_range (seconds - 3600 * inject_Z h) 60 0 59)
    as (m & Hm & Hrange & Hl & Hu);
    [done|change (inject_Z (60 * 0)) with 0; lra
     |change (inject_Z (60 * (59 + 1))) with 3600; lra|].
  rewrite Hm round_half_even_Z.
  do 3 (split; [done|]).
  rewrite inject_Z_plus inject_Z_mult in Hu. rewrite inject_Z_mult in Hl.
  rewrite !inject_Z_plus !inject_Z_mult.
  change (inject_Z 60) with 60 in *. change (inject_Z 3600) with 3600. lra.
Qed.

(** A duration between 59.5 and 60 seconds. *)
Lemma format_time_parts_witness : format_time (599 # 10) = Seconds 60.
Proof.
  pose proof (format_time_parts (599 # 10)) as H.
  destruct (format_time (599 # 10)) as [s|m s|h m] eqn:Hf;
    [|by destruct H as (H & _)|by destruct H as (H & _)].
  destruct H as (_ & _ & Hl & Hu); [done|].
  assert (inject_Z 59 < inject_Z s) as H1
    by (change (inject_Z 59) with 59; lra).
  assert (inject_Z s < inject_Z 61) as H2
    by (change (inject_Z 61) with 61; lra).
  apply (proj1 (inject_Z_lt _ _)) in H1. apply (proj1 (inject_Z_lt _ _)) in H2.
  f_equal. lia.
Defined.

Lemma round_half_even_up (x : Q) (k : Z) :
  Z.even k = false ->
  inject_Z k + (1 # 2) <= x -> x < inject_Z k + 1 ->
  round_half_even x = (k + 1)%Z.
Proof.
  intros Hodd Hl Hu. rewrite /round_half_even.
  assert (Qfloor x = k) as -> by (apply Qfloor_unique; lra).
  destruct (Qlt_bool (x - inject_Z k) (1 # 2)) eqn:H1.
  { apply Qlt_bool_true in H1. lra. }
  destruct (Qlt_bool (1 # 2) (x - inject_Z k)); [done|]. by rewrite Hodd.
Qed.

(** X9. The seconds are rounded after the split into minutes and seconds, so
    the last half second of a minute is shown as 60 seconds: "60s" just
    below one minute, and "<m>m 60s" just below the next minute. *)
Theorem format_time_sixty (seconds : Q) :
  (0 <= seconds -> (119 # 2) <= seconds -> seconds < 60 ->
   format_time seconds = Seconds 60) /\
  (forall m : Z,
     (1 <= m <= 59)%Z ->
     inject_Z (60 * m) + (119 # 2) <= seconds ->
     seconds < inject_Z (60 * m) + 60 ->
     format_time seconds = MinutesSeconds m 60).
Proof.
  split.
  - intros _ Hl Hu. rewrite /format_time.
    rewrite (proj2 (Qlt_bool_true seconds 60) Hu).
    rewrite (round_half_even_up seconds 59) //;
      change (inject_Z 59) with 59; lra.
  - intros m Hm Hl Hu. rewrite /format_time.
    assert (inject_Z 60 <= inject_Z (60 * m)) as H1 by (apply inject_Z_le; lia).
    assert (inject_Z (60 * m) <= inject_Z 3540) as H2 by (apply inject_Z_le; lia).
    change (inject_Z 60) with 60 in H1. change (inject_Z 3540) with 3540 in H2.
    rewrite (proj2 (Qlt_bool_false seconds 60)); [lra|].
    rewrite (proj2 (Qlt_bool_true seconds 3600)); [lra|].
    assert (py_floordiv seconds 60 = inject_Z m) as Hdiv.
    { rewrite /py_floordiv. f_equal. apply Qfloor_unique.
      - apply Qle_shift_div_l; [done|]. rewrite inject_Z_mult in Hl.
        change (inject_Z 60) with 60 in *. lra.
      - apply Qlt_shift_div_r; [done|]. rewrite inject_Z_mult in Hu.
        change (inject_Z 60) with 60 in *. lra. }
    rewrite /py_mod Hdiv round_half_even_Z. f_equal.
    rewrite inject_Z_mult in Hl Hu. change (inject_Z 60) with 60 in *.
    rewrite (round_half_even_up _ 59) //; change (inject_Z 59) with 59; lra.
Qed.

(** One second and a half below two minutes. *)
Lemma format_time_sixty_witness : format_time (2399 # 20) = MinutesSeconds 1 60.
Proof.
  destruct (format_time_sixty (2399 # 20)) as [_ H]. by apply (H 1%Z).
Defined.

(** A duration of zero reads "0s", however the zero is written. *)
Lemma format_time_zero (q : Q) : q == 0 -> format_time q = Seconds 0.
Proof.
  intros Hq. rewrite /format_time.
  rewrite (proj2 (Qlt_bool_true q 60)); [lra|]. f_equal.
  rewrite /round_half_even.
  assert (Qfloor q = 0%Z) as ->
    by (apply Qfloor_unique; change (inject_Z 0) with 0; lra).
  rewrite (proj2 (Qlt_bool_true (q - inject_Z 0) (1 # 2))) //.
  change (inject_Z 0) with 0. lra.
Qed.

End FormatTimeFacts.

(** ** The monitor: speed, ETA and history *)

Section MonitorMore.
Import Monitor MonitorDisplay.

(** The sign of a quotient by a positive number is the sign of the
    numerator. *)
Lemma Qdiv_pos_iff (a : Z) (b : Q) :
  (0 < b)%Q -> (0 < inject_Z a / b)%Q <-> 0 < a.
Proof.
  intros Hb. split.
  - intros Hq. destruct (Z.lt_ge_cases 0 a) as [|Hle]; [done|].
    assert (inject_Z a / b <= 0)%Q as Hneg.
    { apply Qle_shift_div_r; [done|].
      assert (inject_Z a <= inject_Z 0)%Q as Ha by (apply inject_Z_le; lia).
      change (inject_Z 0) with 0%Q in Ha. lra. }
    lra.
  - intros Ha. apply Qlt_shift_div_l; [done|].
    assert (inject_Z 0 < inject_Z a)%Q as Hq by (by apply inject_Z_lt).
    change (inject_Z 0) with 0%Q in Hq. lra.
Qed.

(** X10. A speed is shown exactly when time has passed since the last display,
    the last display saw some bytes, and there are more bytes now: a first
    display, a display after an empty one, and a size that stood still or
    shrank show no speed. The ETA is shown exactly when the speed is, and a
    shown speed is positive. *)
Theorem speed_shown_iff (m : State) (o : Obs) (shown : Shown) (m' : State) :
  display_progress m o = Some (shown, m') ->
  (is_Some (shown_speed shown)
   <-> last_check_time m < now_speed o /\
       0 < last_size m /\ last_size m < current_size o) /\
  (is_Some (shown_eta shown) <-> is_Some (shown_speed shown)) /\
  (forall speed, shown_speed shown = Some speed -> (0 < speed)%Q).
Proof.
  rewrite /display_progress.
  destruct (calculate_speed_cases m (now_speed o) (current_size o))
    as [(Ht & Hs & ->)|(Hno & ->)].
  - set (speed := (inject_Z _ / _)%Q).
    assert ((0 < speed)%Q <-> last_size m < current_size o) as Hsign.
    { rewrite /speed Qdiv_pos_iff; [apply (proj2 (total_seconds_pos _)); lia|].
      lia. }
    destruct (Qgt_bool speed 0) eqn:Hgt.
    + apply Qgt_bool_true in Hgt.
      destruct (estimate_remaining_time_cases (current_size o) speed None)
        as [[Hle _]|[_ ->]]; [lra|]. simpl.
      destruct (if (0 <? current_size o)%Z then _ else _); [|done].
      intros [= <- _]. simpl. split; [|split].
      * split; [intros _|by eexists]. split; [done|]. split; [done|].
        by apply Hsign.
      * split; by eexists.
      * by intros ? [= <-].
    + apply Qgt_bool_false in Hgt. simpl.
      destruct (if (0 <? current_size o)%Z then _ else _); [|done].
      intros [= <- _]. simpl. split; [|split].
      * split; [by intros [? ?]|]. intros (_ & _ & Hlt).
        apply Hsign in Hlt. lra.
      * split; by intros [? ?].
      * done.
  - simpl. destruct (if (0 <? current_size o)%Z then _ else _); [|done].
    intros [= <- _]. simpl. split; [|split].
    + split; [by intros [? ?]|]. lia.
    + split; by intros [? ?].
    + done.
Qed.

(** The second display of a download that started from an empty directory:
    500 bytes arrived, and yet no speed is shown. *)
Lemma speed_shown_iff_witness :
  exists shown m',
    display_progress
      {| start_time := 0; last_size := 0; last_check_time := 1000000;
         size_history := [(1000000, 0)] |}
      {| now_speed := 6000000; current_size := 500;
         now_check := 6000000; now_history := 6000000 |} = Some (shown, m') /\
    shown_speed shown = None.
Proof.
  destruct (display_progress_total
      {| start_time := 0; last_size := 0; last_check_time := 1000000;
         size_history := [(1000000, 0)] |}
      {| now_speed := 6000000; current_size := 500;
         now_check := 6000000; now_history := 6000000 |}) as [shown Hstep].
  exists shown. eexists. split; [exact Hstep|].
  destruct (speed_shown_iff _ _ _ _ Hstep) as ([Hshown _] & _).
  destruct (shown_speed shown) as [v|]; [|done].
  destruct Hshown as (_ & Hlast & _); [by eexists|]. simpl in Hlast. lia.
Defined.

(** X11. An ETA is only computed for a positive speed and is never negative.
    Once the size on disk has reached the target (the 23GB estimate when no
    target is given) it is zero and reads "0s"; before that it is
    positive. *)
Theorem eta_never_negative (current_size : Z) (speed : Q) (target_size : option Z) (q : Q) :
  estimate_remaining_time current_size speed target_size = Some (FormatTime q) ->
  (0 < speed)%Q /\ (0 <= q)%Q /\
  (default flux_dev_size target_size <= current_size ->
   (q == 0)%Q /\ format_time q = Seconds 0) /\
  (current_size < default flux_dev_size target_size -> (0 < q)%Q).
Proof.
  destruct (estimate_remaining_time_cases current_size speed target_size)
    as [[_ ->]|[Hpos ->]]; [done|].
  intros [= <-]. split; [done|].
  set (remaining := Z.max 0 (default flux_dev_size target_size - current_size)).
  assert ((0 < inject_Z remaining / speed)%Q <-> 0 < remaining) as Hsign
    by (by apply Qdiv_pos_iff).
  assert (0 <= inject_Z remaining / speed)%Q as Hnonneg.
  { apply Qle_shift_div_l; [done|].
    assert (inject_Z 0 <= inject_Z remaining)%Q as Hq
      by (apply inject_Z_le; rewrite /remaining; lia).
    change (inject_Z 0) with 0%Q in Hq. lra. }
  split; [done|]. split.
  - intros Hdone.
    assert (remaining = 0) as Hzero by (rewrite /remaining; lia).
    assert (inject_Z remaining / speed == 0)%Q as Heq.
    { rewrite Hzero. change (inject_Z 0) with 0%Q. field. lra. }
    split; [done|].
    by apply format_time_zero.
  - intros Hleft. apply Hsign. rewrite /remaining. lia.
Qed.

(** 30GB on disk against the 23GB estimate, at 1000 bytes per second. *)
Lemma eta_never_negative_witness :
  eta_text (FormatTime (inject_Z (Z.max 0 (flux_dev_size - 30000000000)) / 1000))
  = Some (Seconds 0).
Proof.
  destruct (eta_never_negative 30000000000 1000 None
              (inject_Z (Z.max 0 (flux_dev_size - 30000000000)) / 1000))
    as (_ & _ & Hdone & _); [done|].
  destruct Hdone as [_ Htext]; [done|]. by rewrite /eta_text Htext.
Defined.

End MonitorMore.

Section MonitorState.
Import Monitor MonitorDisplay.

Lemma push_history_last (h : list (Z * Z)) (sample : Z * Z) :
  last (push_history h sample) = Some sample.
Proof.
  rewrite /push_history length_app /=.
  destruct (Nat.ltb_spec 10 (length h + 1)) as [Hlen|_]; [|apply last_snoc].
  destruct h as [|x h]; [simpl in Hlen; lia|]. simpl.
  destruct h as [|y h]; [simpl in Hlen; lia|].
  change (last ((y :: h) ++ [sample]) = Some sample). apply last_snoc.
Qed.

(** X12. After every display of a run the three records of the last observation
    agree: [last_size] is the size that was just seen, [last_check_time] is
    the clock read after it, and the newest sample of the history holds the
    same size. The start time is never changed. *)
Theorem run_last_sample (start check : Z) (obs : list Obs) (o : Obs) :
  exists m,
    run (init start check) (obs ++ [o]) = Some m /\
    start_time m = start /\
    last_size m = current_size o /\
    last_check_time m = now_check o /\
    last (size_history m) = Some (now_history o, current_size o).
Proof.
  destruct (run_reaches start check obs) as (m0 & Hrun & _).
  destruct (display_progress_total m0 o) as [shown Hstep].
  eexists. rewrite run_app Hrun /= Hstep /=.
  split; [done|]. split.
  - clear Hstep shown. revert m0 Hrun.
    generalize (init start check) (eq_refl : start_time (init start check) = start).
    induction obs as [|o' obs IH]; intros m1 Hm1 m0; simpl.
    + by intros [= <-].
    + destruct (display_progress_total m1 o') as [shown' Hstep'].
      rewrite Hstep'. by apply IH.
  - split; [done|]. split; [done|]. apply push_history_last.
Qed.

(** X13. The final lines of [run] never divide by zero: the average speed is
    printed exactly when the clock has moved since the start, and it is not
    negative when the size is not. *)
Theorem average_speed_safe (m : State) (now current_size : Z) :
  exists shown,
    average_speed m now current_size = Some shown /\
    (is_Some shown <-> start_time m < now) /\
    (forall avg, shown = Some avg -> 0 <= current_size -> (0 <= avg)%Q).
Proof.
  rewrite /average_speed.
  destruct (Qgt_bool _ 0) eqn:Hgt.
  - apply Qgt_bool_true in Hgt. rewrite py_truediv_pos //.
    eexists. split; [done|]. split.
    + split; [intros _|by eexists].
      apply (proj1 (total_seconds_pos _)) in Hgt. lia.
    + intros avg [= <-] Hsize. apply Qle_shift_div_l; [done|].
      assert (inject_Z 0 <= inject_Z current_size)%Q as Hq
        by (by apply inject_Z_le).
      change (inject_Z 0) with 0%Q in Hq. lra.
  - apply Qgt_bool_false in Hgt. eexists. split; [done|]. split; [|done].
    split; [by intros [? ?]|]. intros Hlt.
    assert (0 < total_seconds (now - start_time m))%Q as Hpos
      by (apply (proj2 (total_seconds_pos _)); lia).
    lra.
Qed.

End MonitorState.

(** ** The monitor: process lines and progress bar *)

Section MonitorLines.
Import Monitor MonitorDisplay.

Lemma substring_prefix (n : nat) (s : string) :
  (n <= String.length s)%nat ->
  String.length (String.substring 0 n s) = n /\
  exists rest, s = String.substring 0 n s +:+ rest.
Proof.
  revert s. induction n as [|n IH]; intros s Hlen.
  - split; [by destruct s|]. exists s. by destruct s.
  - destruct s as [|c s]; [simpl in Hlen; lia|].
    destruct (IH s) as [Hn [rest Hrest]]; [simpl in Hlen; lia|].
    split; [by rewrite /= Hn|]. exists rest.
    by rewrite /= string_app_cons -Hrest.
Qed.

Lemma shown_process_length (process : string) :
  (String.length (shown_process process) <= 80)%nat.
Proof.
  rewrite /shown_process.
  destruct (Nat.ltb_spec 80 (String.length process)) as [Hlong|Hshort]; [|done].
  destruct (substring_prefix 77 process) as [Hlen _]; [lia|].
  rewrite string_app_length Hlen /=. lia.
Qed.

(** X14. A process line is printed on at most 80 characters: a line of up to 80
    characters is printed as it is, and a longer one is cut to its first 77
    characters followed by three dots. *)
Theorem shown_process_width (process : string) :
  (String.length (shown_process process) <= 80)%nat /\
  ((String.length process <= 80)%nat -> shown_process process = process) /\
  ((80 < String.length process)%nat ->
   String.length (shown_process process) = 80%nat /\
   exists head rest,
     String.length head = 77%nat /\ process = head +:+ rest /\
     shown_process process = head +:+ "...").
Proof.
  rewrite /shown_process.
  destruct (Nat.ltb_spec 80 (String.length process)) as [Hlong|Hshort].
  - destruct (substring_prefix 77 process) as [Hlen [rest Hrest]]; [lia|].
    assert (String.length (String.substring 0 77 process +:+ "...") = 80%nat)
      as Hshown by (by rewrite string_app_length Hlen).
    split; [lia|]. split; [lia|]. intros _. split; [done|].
    by exists (String.substring 0 77 process), rest.
  - split; [done|]. split; [done|]. lia.
Qed.

(** X15. At most three process lines are printed, in the order of the list, each
    on at most 80 characters, and the line "... and N more" counts exactly
    the ones that were left out. *)
Theorem print_processes_counts (processes : list string) :
  (length (print_processes processes).1 <= 3)%nat /\
  (length (print_processes processes).1
   + default 0%nat (print_processes processes).2 = length processes)%nat /\
  (forall n, (print_processes processes).2 = Some n -> (0 < n)%nat) /\
  (forall i line,
     (print_processes processes).1 !! i = Some line ->
     (String.length line <= 80)%nat /\
     exists process, processes !! i = Some process /\ line = shown_process process).
Proof.
  rewrite /print_processes. cbn [fst snd]. rewrite length_map length_take.
  split; [lia|].
  destruct (Nat.ltb_spec 3 (length processes)) as [Hmore|Hall];
    [rewrite Nat.min_l; [lia|]|rewrite Nat.min_r; [lia|]]; rewrite /default /=.
  all: split; [lia|]; split; [intros n Hn; simplify_eq; lia|].
  all: intros i line Hline;
    apply list_lookup_fmap_Some in Hline as (process & -> & Hi);
    apply lookup_take_Some in Hi as [Hi _];
    (split; [apply shown_process_length|by exists process]).
Qed.

End MonitorLines.

Section ProgressBar.
Import Monitor MonitorDisplay.

Lemma Qfloor_range (x : Q) (a b : Z) :
  (inject_Z a <= x)%Q -> (x <= inject_Z b)%Q -> a <= Qfloor x <= b.
Proof.
  intros Ha Hb. destruct (Qfloor_spec x) as [Hl Hu].
  assert (inject_Z a < inject_Z (Qfloor x + 1))%Q as H1
    by (rewrite inject_Z_plus; change (inject_Z 1) with 1%Q; lra).
  assert (inject_Z (Qfloor x) <= inject_Z b)%Q as H2 by lra.
  apply (proj1 (inject_Z_lt _ _)) in H1. apply (proj1 (inject_Z_le _ _)) in H2.
  lia.
Qed.

(** X16. The progress bar of a display that found some bytes: the percentage is
    above 0 and at most 100, the bar always has 40 cells, the full ones
    first, every full cell stands for 2.5 percent that were reached, and
    the bar is full exactly when the size has reached the 23GB estimate. *)
Theorem progress_bar_shape (current_size : Z) :
  0 < current_size ->
  exists (progress : Q) (filled : nat),
    progress_bar current_size
    = Some (Some (progress,
                  replicate filled Full ++ replicate (40 - filled) Light)) /\
    (filled <= 40)%nat /\
    (0 < progress)%Q /\ (progress <= 100)%Q /\
    (inject_Z (Z.of_nat filled) * (5 # 2) <= progress)%Q /\
    (progress < inject_Z (Z.of_nat filled + 1) * (5 # 2))%Q /\
    (filled = 40%nat <-> flux_dev_size <= current_size).
Proof.
  intros Hpos. rewrite /progress_bar.
  destruct (Z.ltb_spec 0 current_size) as [_|]; [|lia].
  assert (0 < inject_Z flux_dev_size)%Q as Htotal by done.
  assert (0 < inject_Z current_size)%Q as Hcur
    by (by apply (inject_Z_lt 0 current_size)).
  rewrite (py_truediv_pos _ _ Htotal).
  set (ratio := (inject_Z current_size / inject_Z flux_dev_size)%Q).
  assert (0 < ratio)%Q as Hratio by (apply Qlt_shift_div_l; lra).
  assert ((1 <= ratio)%Q <-> flux_dev_size <= current_size) as Hfull.
  { rewrite -inject_Z_le /ratio. split.
    - intros H. destruct (Qlt_le_dec (inject_Z current_size)
                            (inject_Z flux_dev_size)) as [Hlt|]; [|done].
      assert (inject_Z current_size / inject_Z flux_dev_size < 1)%Q
        by (apply Qlt_shift_div_r; lra). lra.
    - intros H. apply Qle_shift_div_l; lra. }
  set (progress := Qmin 100 (ratio * 100)).
  assert ((0 < progress)%Q /\ (progress <= 100)%Q /\
          ((100 <= progress)%Q <-> (1 <= ratio)%Q)) as (Hp0 & Hp100 & Hpfull).
  { rewrite /progress.
    destruct (Q.min_spec 100 (ratio * 100)) as [[Hlt ->]|[Hle ->]];
      (split; [lra|]); (split; [lra|]); split; lra. }
  rewrite py_truediv_pos //.
  set (cells := (inject_Z 40 * progress / 100)%Q).
  assert (cells == progress * (2 # 5))%Q as Hcells
    by (rewrite /cells; change (inject_Z 40) with 40%Q; field).
  assert (py_int cells = Qfloor cells) as ->.
  { rewrite /py_int. assert (Qle_bool 0 cells = true) as ->; [|done].
    apply Qle_bool_iff. lra. }
  destruct (Qfloor_range cells 0 40) as [Hf0 Hf40];
    [change (inject_Z 0) with 0%Q; lra|change (inject_Z 40) with 40%Q; lra|].
  destruct (Qfloor_spec cells) as [Hl Hu].
  exists progress, (Z.to_nat (Qfloor cells)).
  replace (Z.to_nat (40 - Qfloor cells)) with (40 - Z.to_nat (Qfloor cells))%nat
    by lia.
  split; [done|]. split; [lia|]. split; [done|]. split; [done|].
  rewrite Z2Nat.id // inject_Z_plus. change (inject_Z 1) with 1%Q.
  split; [lra|]. split; [lra|].
  rewrite -Hfull -Hpfull. split.
  - intros Hforty.
    assert (Qfloor cells = 40) as Heq by lia.
    rewrite Heq in Hl. change (inject_Z 40) with 40%Q in Hl. lra.
  - intros Hdone.
    assert (Qfloor cells = 40) as Heq; [|lia].
    apply Qfloor_unique; change (inject_Z 40) with 40%Q; lra.
Qed.

(** Half of the estimate on disk: 20 full cells and 20 light ones. *)
Lemma progress_bar_shape_witness :
  exists progress bar,
    progress_bar (flux_dev_size / 2) = Some (Some (progress, bar)) /\
    length bar = 40%nat.
Proof.
  destruct (progress_bar_shape (flux_dev_size / 2))
    as (progress & filled & Hbar & Hfilled & _); [done|].
  exists progress. eexists. split; [exact Hbar|].
  rewrite length_app !length_replicate. lia.
Defined.

End ProgressBar.

(** ** The monitor: partial files *)

Section IncompleteFiles.
Import Inventory Monitor MonitorDisplay.

Lemma elem_of_regular_files (root : list (string * Node)) (p : list string) (sz : Z) :
  (p, sz) ∈ regular_files root <-> at_path root p (File sz).
Proof.
  rewrite /regular_files -elem_of_rglob list_elem_of_omap. split.
  - intros ([q x] & Hin & Hfile). destruct x; by simplify_eq/=.
  - intros Hin. by exists (p, File sz).
Qed.

Lemma entry_named_elem (name : string) (entries : list (string * Node)) (n : Node) :
  entry_named name entries = Some n -> (name, n) ∈ entries.
Proof.
  induction entries as [|[nm x] es IH]; [done|]. simpl.
  destruct (String.eqb_spec nm name) as [->|Hne].
  - intros [= ->]. left.
  - intros H. right. by apply IH.
Qed.

Lemma directory_at_path (p : list string) :
  forall root entries q n,
    directory_at root p = Some entries ->
    at_path entries q n -> at_path root (p ++ q) n.
Proof.
  induction p as [|name p IH]; intros root entries q n; simpl.
  - by intros [= ->].
  - destruct (entry_named name root) as [[sz|sub|]|] eqn:Hentry; try done.
    intros Hdir Hq. eapply at_below; [by apply entry_named_elem|].
    by eapply IH.
Qed.

Lemma at_path_nonempty (entries : list (string * Node)) (q : list string) (n : Node) :
  at_path entries q n -> q <> [].
Proof. by intros []. Qed.

Lemma path_name_app (p q : list string) :
  q <> [] -> path_name (p ++ q) = path_name q.
Proof.
  intros Hq. rewrite /path_name. induction p as [|x p IH]; [done|].
  rewrite -IH /=. destruct (p ++ q) eqn:Heq; [|done].
  by apply app_eq_nil in Heq as [_ ?].
Qed.

Lemma elem_le_sum_sizes (l : list Z) (x : Z) :
  (forall y, y ∈ l -> 0 <= y) -> x ∈ l -> x <= sum_sizes l.
Proof.
  induction l as [|y l IH]; intros Hpos Hin; [by apply elem_of_nil in Hin|].
  rewrite sum_sizes_cons.
  assert (0 <= sum_sizes l) as Hsum.
  { clear IH Hin. induction l as [|z l IHl].
    - done.
    - rewrite sum_sizes_cons.
      assert (0 <= z) by (apply Hpos; right; left).
      assert (0 <= sum_sizes l); [|lia].
      apply IHl. intros w Hw. apply Hpos.
      apply elem_of_cons in Hw as [->|Hw]; [left|right; by right]. }
  assert (0 <= y) by (apply Hpos; left).
  apply elem_of_cons in Hin as [->|Hin]; [lia|].
  assert (x <= sum_sizes l); [|lia].
  apply IH; [|done]. intros w Hw. apply Hpos. by right.
Qed.

(** X17. What "Active Downloads" lists is found below the cache directory and
    has a name that ends in [.incomplete]. Every regular file among them is
    one of the files the downloaded total adds up, since such a name does
    not end in [.lock]; with file sizes that are not negative the total is
    at least the size of each of them. *)
Theorem incomplete_files_counted (root : list (string * Node)) (p : list string) (n : Node) :
  (p, n) ∈ get_incomplete_files root ->
  endswith ".incomplete" (path_name p) = true /\
  at_path root (cache_path ++ p) n /\
  forall sz,
    n = File sz ->
    (cache_path ++ p, sz) ∈ regular_files root /\
    is_lock (cache_path ++ p) = false /\
    ((forall q s, at_path root q (File s) -> 0 <= s) ->
     sz <= get_total_downloaded_size (Some root)).
Proof.
  rewrite /get_incomplete_files.
  destruct (directory_at root cache_path) as [entries|] eqn:Hdir;
    [|by intros ?%elem_of_nil].
  intros [Hname Hin]%list_elem_of_filter. simpl in Hname.
  apply elem_of_rglob in Hin.
  pose proof (directory_at_path _ _ _ _ _ Hdir Hin) as Hpath.
  split; [done|]. split; [done|]. intros sz ->.
  assert (is_lock (cache_path ++ p) = false) as Hlock.
  { rewrite /is_lock path_name_app; [by eapply at_path_nonempty|].
    by apply (endswith_exclusive ".incomplet" ".loc" _ "e"%char "k"%char). }
  assert ((cache_path ++ p, sz) ∈ regular_files root) as Hreg
    by (by apply elem_of_regular_files).
  split; [done|]. split; [done|]. intros Hsizes.
  rewrite /get_total_downloaded_size foldl_total_step Z.add_0_l.
  fold (regular_files root). apply elem_le_sum_sizes.
  - intros y ([q s] & -> & [_ Hq]%list_elem_of_filter)%list_elem_of_fmap.
    apply elem_of_regular_files in Hq. by eapply Hsizes.
  - apply list_elem_of_fmap. exists (cache_path ++ p, sz). split; [done|].
    by apply list_elem_of_filter.
Qed.

(** The partial file of the sample cache: 5000 of the 5543 bytes. *)
Lemma incomplete_files_counted_witness :
  5000 <= get_total_downloaded_size (Some Fixture.cache_tree).
Proof.
  destruct (incomplete_files_counted Fixture.cache_tree
              ["vae.safetensors.incomplete"%string] (File 5000))
    as (_ & _ & Hfile).
  { rewrite /get_incomplete_files /=. left. }
  destruct (Hfile 5000 eq_refl) as (_ & _ & Htotal). apply Htotal.
  intros q s Hq%elem_of_regular_files.
  rewrite /regular_files /= in Hq.
  repeat (apply elem_of_cons in Hq as [[= _ ->]|Hq]; [done|]).
  by apply elem_of_nil in Hq.
Defined.

End IncompleteFiles.

(** ** The status check: the progress line *)

Section ProgressLine.
Import Status StatusReport.

Lemma sum_sizes_nonneg (l : list Z) :
  (forall x, x ∈ l -> 0 <= x) ->
  0 <= sum_sizes l /\ (0 < sum_sizes l <-> exists x, x ∈ l /\ 0 < x).
Proof.
  induction l as [|y l IH]; intros Hpos.
  - split; [done|]. split; [done|]. by intros (x & ?%elem_of_nil & _).
  - rewrite sum_sizes_cons.
    assert (0 <= y) as Hy by (apply Hpos; left).
    destruct IH as [Hsum Hiff]; [intros x Hx; apply Hpos; by right|].
    split; [lia|]. split.
    + intros Hlt. destruct (decide (0 < y)) as [|Hzero].
      * exists y. split; [left|done].
      * destruct (proj1 Hiff) as (x & Hx & Hxpos); [lia|].
        exists x. split; [by right|done].
    + intros (x & [->|Hx]%elem_of_cons & Hxpos); [lia|].
      assert (0 < sum_sizes l); [|lia]. apply Hiff. by exists x.
Qed.

(** X7. The "Progress" line never divides by zero. With declared sizes that are
    not negative it is printed exactly when the index has size information;
    the percentage is the local size over the expected total, it is not
    capped, and it is above 100 as soon as the directory holds more bytes
    than the index declares. *)
Theorem progress_line (e : Env) (local_size : Z) :
  (forall f x, (f, x) ∈ file_sizes_of e -> 0 <= x) ->
  exists line,
    progress_percent local_size (total_expected_size e) = Some line /\
    (is_Some line <-> has_size_info (file_sizes_of e) = true) /\
    (forall pct,
       line = Some pct ->
       (pct == inject_Z local_size / inject_Z (total_expected_size e) * 100)%Q /\
       (0 <= local_size -> (0 <= pct)%Q) /\
       (total_expected_size e < local_size -> (100 < pct)%Q)).
Proof.
  intros Hsizes.
  destruct (sum_sizes_nonneg (file_sizes_of e).*2) as [_ Hiff].
  { intros x ([f y] & -> & Hin)%list_elem_of_fmap. by eapply Hsizes. }
  assert (0 < total_expected_size e <-> has_size_info (file_sizes_of e) = true)
    as Hinfo.
  { rewrite /total_expected_size Hiff has_size_info_spec. split.
    - intros (x & ([f y] & -> & Hin)%list_elem_of_fmap & Hx). by exists f, y.
    - intros (f & x & Hin & Hx). exists x. split; [|done].
      apply list_elem_of_fmap. by exists (f, x). }
  rewrite /progress_percent.
  destruct (Z.ltb_spec 0 (total_expected_size e)) as [Hpos|Hzero].
  - assert (0 < inject_Z (total_expected_size e))%Q as Hq
      by (by apply (inject_Z_lt 0)).
    rewrite py_truediv_pos //. eexists. split; [done|]. split.
    + split; [intros _; by apply Hinfo|by eexists].
    + intros pct [= <-]. split; [done|]. split.
      * intros Hlocal.
        assert (0 <= inject_Z local_size / inject_Z (total_expected_size e))%Q.
        { apply Qle_shift_div_l; [done|].
          assert (inject_Z 0 <= inject_Z local_size)%Q as H0
            by (by apply inject_Z_le).
          change (inject_Z 0) with 0%Q in H0. lra. }
        lra.
      * intros Hover.
        assert (1 < inject_Z local_size / inject_Z (total_expected_size e))%Q.
        { apply Qlt_shift_div_l; [done|].
          assert (inject_Z (total_expected_size e) < inject_Z local_size)%Q
            by (by apply inject_Z_lt). lra. }
        lra.
  - eexists. split; [done|]. split; [|done].
    split; [by intros [? ?]|]. intros Hyes%Hinfo. lia.
Qed.

(** The sample index of 300 bytes and a directory of 5850 bytes. *)
Lemma progress_line_witness :
  exists line,
    progress_percent 5850
      (total_expected_size
         (Sample.env true (Some Sample.index) Sample.full_disk true)) = Some line /\
    is_Some line.
Proof.
  destruct (progress_line
              (Sample.env true (Some Sample.index) Sample.full_disk true) 5850)
    as (line & Hline & Hshown & _).
  - intros f x Hin.
    repeat (apply elem_of_cons in Hin as [[= _ ->]|Hin]; [done|]).
    by apply elem_of_nil in Hin.
  - exists line. split; [done|]. by apply Hshown.
Defined.

End ProgressLine.

(** ** The two scans of a directory *)

Section Scans.
Import Inventory InventoryExtra.

Lemma sum_sizes_split (l : list (list string * Z)) :
  sum_sizes (map snd l)
  = sum_sizes (map snd (filter (fun f => is_lock f.1 = false) l))
    + sum_sizes (map snd (filter (fun f => is_lock f.1 = true) l)).
Proof.
  induction l as [|[p sz] l IH]; [done|].
  rewrite !filter_cons /= sum_sizes_cons IH.
  destruct (is_lock p); simpl; rewrite sum_sizes_cons; lia.
Qed.

(** X18. The status check and the monitor do not report the same size for the
    same directory: the status check's total is the monitor's total plus
    the bytes of the [.lock] files. With file sizes that are not negative
    the monitor's total is between 0 and the status check's. *)
Theorem scans_differ_by_lock_files (root : list (string * Node)) :
  (scan_local root).2
  = get_total_downloaded_size (Some root) + lock_total root /\
  ((forall q s, at_path root q (File s) -> 0 <= s) ->
   0 <= get_total_downloaded_size (Some root) <= (scan_local root).2).
Proof.
  rewrite /scan_local foldl_local_step /get_total_downloaded_size
    foldl_total_step /lock_total /= !Z.add_0_l.
  fold (regular_files root).
  split; [apply sum_sizes_split|]. intros Hsizes.
  rewrite (sum_sizes_split (regular_files root)).
  assert (forall P : list string * Z -> Prop, forall HP : forall x, Decision (P x),
            0 <= sum_sizes (map snd (filter P (regular_files root)))) as Hpos.
  { intros P HP. apply sum_sizes_nonneg.
    intros y ([q s] & -> & [_ Hq]%list_elem_of_filter)%list_elem_of_fmap.
    apply elem_of_regular_files in Hq. by eapply Hsizes. }
  pose proof (Hpos (fun f => is_lock f.1 = false) _).
  pose proof (Hpos (fun f => is_lock f.1 = true) _). lia.
Qed.

End Scans.

Section DistinctPaths.
Import Inventory InventoryExtra.

Lemma elem_of_rglob_below (parent : list string) (entries : list (string * Node))
    (p : list string) (x : Node) :
  (p, x) ∈ rglob_below parent entries
  <-> exists q, p = parent ++ q /\ at_path entries q x.
Proof.
  induction entries as [|e es IH].
  - split; [by intros ?%elem_of_nil|]. intros (q & _ & Hq).
    by apply at_path_nil in Hq.
  - rewrite /= elem_of_app IH elem_of_rglob_node. split.
    + intros [[[-> ->]|(sub & q & Hsub & -> & Hq)]|(q & -> & Hq)].
      * exists [e.1]. split; [done|]. apply at_path_cons. by left.
      * exists (e.1 :: q). split; [done|].
        apply at_path_cons. right. left. by exists sub, q.
      * exists q. split; [done|]. apply at_path_cons. by right; right.
    + intros (q & -> & [[-> ->]|[(sub & q' & Hsub & -> & Hq)|Hq]]%at_path_cons).
      * left. by left.
      * left. right. by exists sub, q'.
      * right. by exists q.
Qed.

(** A path below a directory starts with the name of one of its entries. *)
Lemma at_path_head (entries : list (string * Node)) (q : list string) (x : Node) :
  at_path entries q x -> exists name rest, q = name :: rest /\ name ∈ entries.*1.
Proof.
  intros [es name n Hin|es name sub p n Hin _].
  - exists name, []. split; [done|]. apply list_elem_of_fmap. by exists (name, n).
  - exists name, p. split; [done|]. apply list_elem_of_fmap.
    by exists (name, Dir sub).
Qed.

Lemma distinct_names_cons (e : string * Node) (es : list (string * Node)) :
  distinct_names (e :: es) ->
  (e.1 ∉ es.*1) /\ distinct_names es /\
  (forall sub, e.2 = Dir sub -> distinct_names sub).
Proof.
  inversion 1 as [entries Hnd Hsub]; subst.
  rewrite fmap_cons in Hnd. apply NoDup_cons in Hnd as [Hfresh Hnd].
  split; [done|]. split.
  - constructor; [done|]. intros name sub Hin. eapply Hsub. by right.
  - intros sub He. apply (Hsub e.1). destruct e as [name x]. simpl in He.
    subst. left.
Qed.

Lemma rglob_below_distinct_aux (entries : list (string * Node)) :
  Forall (fun e : string * Node =>
            forall parent name,
              (forall sub, e.2 = Dir sub -> distinct_names sub) ->
              NoDup (rglob_node parent name e.2).*1) entries ->
  distinct_names entries ->
  forall dir, NoDup (rglob_below dir entries).*1.
Proof.
  intros IH Hwf dir.
  induction IH as [|e es He _ IHes]; [constructor|].
  destruct (distinct_names_cons _ _ Hwf) as (Hfresh & Hes & Hsub).
  rewrite /= fmap_app. apply NoDup_app. split; [by apply He|]. split.
  - intros p ([p1 x1] & -> & Hin1)%list_elem_of_fmap
             ([p2 x2] & Heq & Hin2)%list_elem_of_fmap.
    simpl in Heq. subst p2.
    apply elem_of_rglob_below in Hin2 as (q2 & -> & Hq2).
    destruct (at_path_head _ _ _ Hq2) as (nm & rest & -> & Hnm).
    apply elem_of_rglob_node in Hin1
      as [[Heq _]|(sub & q1 & _ & Heq & _)];
      apply app_inv_head in Heq; injection Heq as -> _; done.
  - by apply IHes.
Qed.

Lemma rglob_node_distinct (n : Node) :
  forall parent name,
    (forall sub, n = Dir sub -> distinct_names sub) ->
    NoDup (rglob_node parent name n).*1.
Proof.
  induction n as [sz|  |entries IH] using Node_entries_ind;
    intros parent name Hwf.
  - apply NoDup_singleton.
  - apply NoDup_singleton.
  - rewrite rglob_node_Dir fmap_cons. specialize (Hwf entries eq_refl).
    apply NoDup_cons. split.
    + intros ([p x] & Hp & (q & -> & Hq)%elem_of_rglob_below)%list_elem_of_fmap.
      simpl in Hp. rewrite -app_assoc in Hp. apply app_inv_head in Hp.
      destruct (at_path_head _ _ _ Hq) as (nm & rest & -> & _).
      discriminate Hp.
    + by apply rglob_below_distinct_aux.
Qed.

(** X19. In a tree where the entries of every directory have distinct names the
    scan meets every path once: no entry is yielded twice, no regular file
    is counted twice, and a path stands for one entry. *)
Theorem rglob_paths_distinct (root : list (string * Node)) :
  distinct_names root ->
  NoDup (rglob root).*1 /\ NoDup (regular_files root).*1 /\
  (forall p x y, (p, x) ∈ rglob root -> (p, y) ∈ rglob root -> x = y).
Proof.
  intros Hwf.
  assert (NoDup (rglob root).*1) as Hnd.
  { apply rglob_below_distinct_aux; [|done].
    apply Forall_forall. intros e _ parent name. apply rglob_node_distinct. }
  split; [done|]. split.
  - rewrite /regular_files. revert Hnd.
    induction (rglob root) as [|[p x] l IH]; [constructor|].
    simpl. intros [Hfresh Hnd]%NoDup_cons. specialize (IH Hnd).
    destruct x as [sz| |]; simpl; try done.
    apply NoDup_cons. split; [|done].
    intros ([q s] & Hq & Hin)%list_elem_of_fmap. simpl in Hq. subst q.
    apply list_elem_of_omap in Hin as ([q y] & Hin & Hy).
    destruct y; simplify_eq/=. apply Hfresh, list_elem_of_fmap.
    by eexists (_, _).
  - intros p x y Hx Hy. revert Hnd Hx Hy.
    induction (rglob root) as [|[q z] l IH]; [by intros _ ?%elem_of_nil|].
    simpl. intros [Hfresh Hnd]%NoDup_cons.
    assert (forall v, (q, v) ∈ l -> False) as Hno.
    { intros v Hv. apply Hfresh, list_elem_of_fmap. by exists (q, v). }
    intros [Hx|Hx]%elem_of_cons [Hy|Hy]%elem_of_cons; simplify_eq;
      first [done | by destruct (Hno _ Hx) | by destruct (Hno _ Hy) | by apply IH].
Qed.

Lemma distinct_names_files (entries : list (string * Node)) :
  NoDup entries.*1 ->
  (forall name sub, (name, Dir sub) ∉ entries) ->
  distinct_names entries.
Proof.
  intros Hnd Hfiles. constructor; [done|].
  intros name sub Hin. by destruct (Hfiles name sub).
Qed.

Lemma distinct_names_single (name : string) (sub : list (string * Node)) :
  distinct_names sub -> distinct_names [(name, Dir sub)].
Proof.
  intros Hsub. constructor; [apply NoDup_singleton|].
  intros nm s [= _ ->]%list_elem_of_singleton. done.
Qed.

(** The sample cache: four levels, three regular files. *)
Lemma rglob_paths_distinct_witness :
  NoDup (regular_files Fixture.cache_tree).*1.
Proof.
  destruct (rglob_paths_distinct Fixture.cache_tree) as (_ & Hfiles & _);
    [|done].
  constructor.
  - apply NoDup_cons. split; [|apply NoDup_singleton].
    by intros [=]%list_elem_of_singleton.
  - intros name sub [Hin|Hin]%elem_of_cons; [done|].
    apply list_elem_of_singleton in Hin as [= _ ->].
    do 2 apply distinct_names_single.
    apply distinct_names_files.
    + apply NoDup_cons. split; [|apply NoDup_singleton].
      by intros [=]%list_elem_of_singleton.
    + intros nm s [Hin|Hin]%elem_of_cons; [done|].
      by apply list_elem_of_singleton in Hin.
Defined.

End DistinctPaths.

(** ** The status check: the two lists *)

Section CompareLists.
Import Status.

(** X20. The comparison puts an expected file in at most one of its two
    lists: a file reported missing is in no triple of the incomplete list.
    The missing files come in the order of the index, and the two lists
    together are no longer than the index. *)
Theorem compare_lists_disjoint (d : gmap string Z) (fs : list (string * Z)) :
  (forall f a x,
     f ∈ (compare_files d fs).1 -> (f, a, x) ∉ (compare_files d fs).2) /\
  (compare_files d fs).1 `sublist_of` fs.*1 /\
  (length (compare_files d fs).1 + length (compare_files d fs).2
   <= length fs)%nat.
Proof.
  rewrite compare_files_spec /=. split; [|split].
  - intros f a x [_ Hnone]%elem_of_Missing (_ & Hsome & _)%elem_of_SizeMismatch.
    congruence.
  - apply sublist_filter.
  - induction fs as [|[f x] fs IH]; [done|].
    rewrite Missing_cons SizeMismatch_cons.
    destruct (d !! f) as [a|]; [case_bool_decide|]; simpl; lia.
Qed.

End CompareLists.
